(** * The conversation engine of [openai_agent/agent.py]

    A shallow embedding of the class [OpenAIAgent]: the transcript, the
    message and reply logs, the lazily started conversation and the calls to
    the completion provider.  Python objects are mutated in place, so every
    method is a computation in a state-and-exception monad over the agent
    and the outside world; an exception keeps the mutations made before it
    was raised, as in Python. *)

From stdpp Require Import base option list strings gmap.
From Stdlib Require Import Ascii ZArith Lia.

(** ** Python strings

    A [str] is modelled by a [string] whose characters are ASCII code
    points, on which [str.strip], [str.upper] and [re.sub] are exact. *)

Module PyStr.

Definition LF : string := String (ascii_of_nat 10) EmptyString.

(** [str.isspace] on one ASCII character: TAB, LF, VT, FF, CR, the four
    separators FS, GS, RS, US and the space. *)
Definition isspace (c : ascii) : bool :=
  let n := N_of_ascii c in
  ((9 <=? n) && (n <=? 13) || (28 <=? n) && (n <=? 32))%N.

Definition is_newline (c : ascii) : bool := (N_of_ascii c =? 10)%N.

Definition is_empty (s : string) : bool :=
  match s with EmptyString => true | String _ _ => false end.

(** Truth value of a string: only [""] is falsy. *)
Definition truthy (s : string) : bool := negb (is_empty s).

Fixpoint ltrim (p : ascii → bool) (s : string) : string :=
  match s with
  | EmptyString => EmptyString
  | String c r => if p c then ltrim p r else s
  end.

Fixpoint rtrim (p : ascii → bool) (s : string) : string :=
  match s with
  | EmptyString => EmptyString
  | String c r =>
      let r' := rtrim p r in
      if p c && is_empty r' then EmptyString else String c r'
  end.

(** [s.strip()] *)
Definition strip (s : string) : string := rtrim isspace (ltrim isspace s).

(** [re.sub("(\\n)*$", "", s)]: the pattern matches the maximal run of
    newlines that ends the string (and the empty string at its end), so
    the substitution deletes every trailing newline and nothing else. *)
Definition sub_trailing_newlines (s : string) : string := rtrim is_newline s.

Definition upper_char (c : ascii) : ascii :=
  let n := N_of_ascii c in
  if ((97 <=? n) && (n <=? 122))%N then ascii_of_N (n - 32) else c.

(** [s.upper()] *)
Fixpoint upper (s : string) : string :=
  match s with
  | EmptyString => EmptyString
  | String c r => String (upper_char c) (upper r)
  end.

(** [a or b] on optional strings: [None] and [""] are falsy, and a falsy
    left operand yields the right operand whatever it is. *)
Definition or_else (a b : option string) : option string :=
  match a with
  | Some s => if truthy s then a else b
  | None => b
  end.

(** [a or "default"], which is always a string. *)
Definition or_default (a : option string) (d : string) : string :=
  match a with
  | Some s => if truthy s then s else d
  | None => d
  end.

(** [a] is a proper prefix of [b]: [b] continues [a] by at least one
    character. *)
Definition proper_prefix (a b : string) : Prop :=
  ∃ tail, tail ≠ EmptyString ∧ b = a +:+ tail.

(** [b.startswith(a)] *)
Definition startswith (b a : string) : bool := String.prefix a b.

End PyStr.
Import PyStr.

(** ** Python values stored in the generation parameters *)

Inductive value :=
  | VNone
  | VInt (z : Z)
  | VFloat (mantissa exponent10 : Z)   (* mantissa * 10 ^ exponent10 *)
  | VStr (s : string).

Definition value_truthy (v : value) : bool :=
  match v with
  | VNone => false
  | VInt z => negb (z =? 0)%Z
  | VFloat m _ => negb (m =? 0)%Z
  | VStr s => truthy s
  end.

(** [a or b] *)
Definition value_or (a b : value) : value := if value_truthy a then a else b.

(** ** Exceptions *)

Inductive format_error := FormatKeyError | FormatValueError | FormatIndexError.

Inductive exn :=
  | AttributeError
  | TypeError
  | ValueError
  | KeyError
  | IndexError
  | EngineListError (detail : string)   (* [openai.Engine.list()] failed *)
  | ProviderError (detail : string).    (* [openai.Completion.create] failed *)

Definition exn_of_format (e : format_error) : exn :=
  match e with
  | FormatKeyError => KeyError
  | FormatValueError => ValueError
  | FormatIndexError => IndexError
  end.

(** ** The outside world *)

(** One call [openai.Completion.create(prompt=..., **params, stop=...)]. *)
Record Request := {
  req_prompt : string;
  req_params : gmap string value;
  req_stop : option (list string);
}.

(** What the engine does not implement itself: the built-in [str.format],
    the list of engines ([AVAILABLE_ENGINES] or [openai.Engine.list()]), the
    completion service, which answers a request knowing the earlier ones
    with the texts of its choices or with a failure, and the clock. *)
Class Platform := {
  str_format : string → list (string * option string) → format_error + string;
  available_engines : string + list string;
  completion_create : list Request → Request → string + list string;
  utcnow_isoformat : nat → string;
}.

Record World := {
  clock : nat;
  requests : list Request;
}.

(** ** The agent object *)

Record OpenAIAgent := {
  _agent_name : string;
  username : option string;
  START_TEMPLATE : string;
  MSG_TEMPLATE : string;
  completion_params : gmap string value;
  _conversation__ : option string;
  conversation_start_time : string;
  is_conversation_active : bool;
  __messages__ : list string;
  __replies__ : list string;
}.

Record State := {
  self : OpenAIAgent;
  world : World;
}.

(** ** The monad of methods *)

Definition M (A : Type) : Type := State → (exn + A) * State.

Global Instance M_ret : MRet M := λ A x st, (inr x, st).
Global Instance M_bind : MBind M := λ A B f m st,
  match m st with
  | (inl e, st') => (inl e, st')
  | (inr x, st') => f x st'
  end.

Definition raise {A} (e : exn) : M A := λ st, (inl e, st).
Definition get_self : M OpenAIAgent := λ st, (inr (self st), st).
Definition get_world : M World := λ st, (inr (world st), st).
Definition put_world (w : World) : M unit :=
  λ st, (inr tt, {| self := self st; world := w |}).
Definition lift {A} (r : exn + A) : M A := λ st, (r, st).
Definition modify (f : OpenAIAgent → OpenAIAgent) : M unit :=
  λ st, (inr tt, {| self := f (self st); world := world st |}).

(** Assignments to one attribute of the object. *)

Definition with_username (u : option string) (a : OpenAIAgent) : OpenAIAgent :=
  {| _agent_name := _agent_name a; username := u;
     START_TEMPLATE := START_TEMPLATE a; MSG_TEMPLATE := MSG_TEMPLATE a;
     completion_params := completion_params a;
     _conversation__ := _conversation__ a;
     conversation_start_time := conversation_start_time a;
     is_conversation_active := is_conversation_active a;
     __messages__ := __messages__ a; __replies__ := __replies__ a |}.

Definition with_completion_params (p : gmap string value) (a : OpenAIAgent)
  : OpenAIAgent :=
  {| _agent_name := _agent_name a; username := username a;
     START_TEMPLATE := START_TEMPLATE a; MSG_TEMPLATE := MSG_TEMPLATE a;
     completion_params := p;
     _conversation__ := _conversation__ a;
     conversation_start_time := conversation_start_time a;
     is_conversation_active := is_conversation_active a;
     __messages__ := __messages__ a; __replies__ := __replies__ a |}.

Definition with_conversation (c : option string) (a : OpenAIAgent) : OpenAIAgent :=
  {| _agent_name := _agent_name a; username := username a;
     START_TEMPLATE := START_TEMPLATE a; MSG_TEMPLATE := MSG_TEMPLATE a;
     completion_params := completion_params a;
     _conversation__ := c;
     conversation_start_time := conversation_start_time a;
     is_conversation_active := is_conversation_active a;
     __messages__ := __messages__ a; __replies__ := __replies__ a |}.

Definition with_start_time (t : string) (a : OpenAIAgent) : OpenAIAgent :=
  {| _agent_name := _agent_name a; username := username a;
     START_TEMPLATE := START_TEMPLATE a; MSG_TEMPLATE := MSG_TEMPLATE a;
     completion_params := completion_params a;
     _conversation__ := _conversation__ a;
     conversation_start_time := t;
     is_conversation_active := is_conversation_active a;
     __messages__ := __messages__ a; __replies__ := __replies__ a |}.

Definition with_active (b : bool) (a : OpenAIAgent) : OpenAIAgent :=
  {| _agent_name := _agent_name a; username := username a;
     START_TEMPLATE := START_TEMPLATE a; MSG_TEMPLATE := MSG_TEMPLATE a;
     completion_params := completion_params a;
     _conversation__ := _conversation__ a;
     conversation_start_time := conversation_start_time a;
     is_conversation_active := b;
     __messages__ := __messages__ a; __replies__ := __replies__ a |}.

Definition with_messages (l : list string) (a : OpenAIAgent) : OpenAIAgent :=
  {| _agent_name := _agent_name a; username := username a;
     START_TEMPLATE := START_TEMPLATE a; MSG_TEMPLATE := MSG_TEMPLATE a;
     completion_params := completion_params a;
     _conversation__ := _conversation__ a;
     conversation_start_time := conversation_start_time a;
     is_conversation_active := is_conversation_active a;
     __messages__ := l; __replies__ := __replies__ a |}.

Definition with_replies (l : list string) (a : OpenAIAgent) : OpenAIAgent :=
  {| _agent_name := _agent_name a; username := username a;
     START_TEMPLATE := START_TEMPLATE a; MSG_TEMPLATE := MSG_TEMPLATE a;
     completion_params := completion_params a;
     _conversation__ := _conversation__ a;
     conversation_start_time := conversation_start_time a;
     is_conversation_active := is_conversation_active a;
     __messages__ := __messages__ a; __replies__ := l |}.

(** The class attributes [START_TEMPLATE] (a stripped triple-quoted
    literal) and [MSG_TEMPLATE]. *)
Definition DEFAULT_START_TEMPLATE : string :=
  "The following is a conversation with an AI. The AI is helpful, apolitical, clever, and very friendly. "
  +:+ LF +:+ "The AI's name is {AGENT_NAME} and is talking with {USERNAME}.".

Definition DEFAULT_MSG_TEMPLATE : string :=
  "{user_name}:{MSG}" +:+ LF +:+ "{AGENT_NAME}:".

(** The keyword arguments of the two [format] calls:
    [AGENT_NAME=self.name, USERNAME=f"a person named {user_name}" if user_name else "a human"]
    and [user_name=username, AGENT_NAME=self.name, MSG=msg.strip()]. *)
Definition start_kwargs (n : string) (user_name : option string)
  : list (string * option string) :=
  [("AGENT_NAME", Some n);
   ("USERNAME", Some match or_else user_name None with
                     | Some u => "a person named " +:+ u
                     | None => "a human"
                     end)].

Definition turn_kwargs (user : option string) (n msg : string)
  : list (string * option string) :=
  [("user_name", user); ("AGENT_NAME", Some n); ("MSG", Some (strip msg))].

(** ** The methods of [OpenAIAgent] *)

Section Engine.
Context `{Platform}.

(** [datetime.utcnow().isoformat()] *)
Definition utcnow : M string :=
  w ← get_world;
  put_world {| clock := S (clock w); requests := requests w |};;
  mret (utcnow_isoformat (clock w)).

(** [template.format] applied to keyword arguments *)
Definition format (template : string) (kwargs : list (string * option string))
  : M string :=
  match str_format template kwargs with
  | inl e => raise (exn_of_format e)
  | inr s => mret s
  end.

(** [get_available_engines] *)
Definition get_available_engines : exn + list string :=
  match available_engines with
  | inl detail => inl (EngineListError detail)
  | inr engines => inr engines
  end.

(** The property [conversation]: [self._conversation__ or ""]. *)
Definition conversation_of (a : OpenAIAgent) : string :=
  or_default (_conversation__ a) "".

(** The property [engine]: [self.completion_params["engine"]]. *)
Definition engine_of (a : OpenAIAgent) : exn + value :=
  match completion_params a !! "engine" with
  | Some v => inr v
  | None => inl KeyError
  end.

(** The property [name]. *)
Definition name_of (a : OpenAIAgent) : exn + string :=
  match get_available_engines with
  | inl e => inl e
  | inr engines =>
      if bool_decide (_agent_name a ∈ engines) then
        match engine_of a with
        | inl e => inl e
        | inr (VStr s) => inr (upper s)
        | inr _ => inl AttributeError     (* no [upper] on a non-string *)
        end
      else inr (_agent_name a)
  end.

(** Reading the properties of [self] inside a method. *)
Definition conversation : M string := a ← get_self; mret (conversation_of a).
Definition name : M string := a ← get_self; lift (name_of a).

(** [set_agent_param] *)
Definition set_agent_param (param : string) (val : value) : M unit :=
  modify (λ a, with_completion_params (<[param := val]> (completion_params a)) a).

(** [start_conversation] *)
Definition start_conversation (user_name : option string) : M unit :=
  a ← get_self;
  n ← name;
  t ← format (START_TEMPLATE a) (start_kwargs n user_name);
  modify (with_conversation (Some t));;
  now ← utcnow;
  modify (with_start_time now);;
  modify (with_active true);;
  modify (with_username (Some (or_default user_name "HUMAN"))).

(** [set_conversation] *)
Definition set_conversation (conversation : string) : M unit :=
  modify (with_conversation (Some conversation)).

(** The attribute [append] of a [str]: there is none. *)
Definition str_append (s : string) : M (string → option string) :=
  raise AttributeError.

(** [add_to_conversation] *)
Definition add_to_conversation (string : string) : M unit :=
  c ← conversation;
  append ← str_append c;
  modify (with_conversation (append string)).

(** [make_chat_prompt] *)
Definition make_chat_prompt (msg : string) (username_arg : option string)
    (continue_conversation : bool) : M string :=
  a ← get_self;
  let username_arg := or_else username_arg (username a) in
  (if negb (is_conversation_active a) || negb continue_conversation
   then start_conversation None else mret tt);;
  a ← get_self;
  n ← name;
  format (MSG_TEMPLATE a) (turn_kwargs username_arg n msg).

(** [get_completion]; a [prompt] or [stop] among the parameters collides
    with the keyword arguments of the call. *)
Definition get_completion (prompt : string) (stop : option (list string))
    (kwargs : gmap string value) : M (list string) :=
  a ← get_self;
  let params := completion_params a in
  let params := <["max_tokens" := default (VInt 150) (params !! "max_tokens")]> params in
  let params := kwargs ∪ params in
  match params !! "prompt", params !! "stop" with
  | None, None =>
      w ← get_world;
      let rq := {| req_prompt := prompt; req_params := params; req_stop := stop |} in
      put_world {| clock := clock w; requests := requests w ++ [rq] |};;
      match completion_create (requests w) rq with
      | inl detail => raise (ProviderError detail)
      | inr choices => mret choices
      end
  | _, _ => raise TypeError
  end.

(** [completion.choices[0].text] *)
Definition first_choice (choices : list string) : M string :=
  match choices with
  | text :: _ => mret text
  | [] => raise IndexError
  end.

(** [max_response_length or self.completion_params.get("max_tokens")] *)
Definition max_tokens_arg (max_response_length : value) : M value :=
  a ← get_self;
  mret (value_or max_response_length
          (default VNone (completion_params a !! "max_tokens"))).

(** [get_single_reply] *)
Definition get_single_reply (msg : string) (max_response_length : value)
    (user_name : option string) : M string :=
  a ← get_self;
  let user_name := or_else user_name (username a) in
  new_prompt ← make_chat_prompt msg None false;
  max_tokens ← max_tokens_arg max_response_length;
  human_stop ← match user_name with
               | Some u => mret (u +:+ ":")
               | None => raise TypeError      (* [None + ":"] *)
               end;
  n ← name;
  completion ← get_completion new_prompt (Some [human_stop; n +:+ ":"])
                 {["max_tokens" := max_tokens]};
  first_choice completion.

(** [update_conversation] *)
Definition update_conversation (msg : string) (reply : option string) : M unit :=
  let reply := or_default reply "" in
  c ← conversation;
  p ← make_chat_prompt msg None true;
  modify (with_conversation (Some (((c +:+ p) +:+ strip reply) +:+ LF)));;
  modify (λ a, with_messages (__messages__ a ++ [msg]) a);;
  if truthy reply
  then modify (λ a, with_replies (__replies__ a ++ [reply]) a)
  else mret tt.

(** [send_message] *)
Definition send_message (msg : string) : M unit :=
  update_conversation msg None.

(** The branches of [if msg:] in [get_reply]: the prompt and the message
    that will be logged. *)
Definition reply_prompt (msg : option string) : M (string * string) :=
  match or_else msg None with
  | Some m => p ← make_chat_prompt m None true; mret (p, m)
  | None => c ← conversation; mret (c, "")
  end.

(** [get_reply] *)
Definition get_reply (msg : option string) (max_response_length : value)
    : M string :=
  '(prompt, msg) ← reply_prompt msg;
  a ← get_self;
  let user_name := or_default (username a) "HUMAN" in
  c ← conversation;
  max_tokens ← max_tokens_arg max_response_length;
  n ← name;
  completion ← get_completion (c +:+ prompt)
                 (Some [user_name +:+ ":"; n +:+ ":"])
                 {["max_tokens" := max_tokens]};
  text ← first_choice completion;
  let reply_txt := sub_trailing_newlines (strip text) in
  update_conversation msg (Some reply_txt);;
  mret reply_txt.

End Engine.

(** ** Construction *)

(** The arguments of [__init__] with their defaults; the API key only
    configures the transport and is left out. *)
Record InitArgs := {
  arg_name : option string;
  arg_engine : string;
  arg_start_template : option string;
  arg_msg_template : option string;
  arg_max_response_length : value;
  arg_temperature : value;
  arg_top_p : value;
  arg_frequency_penalty : value;
  arg_presence_penalty : value;
  arg_n_completions_per_prompt : value;
  arg_extra_params : gmap string value;
}.

Definition default_args : InitArgs := {|
  arg_name := None;
  arg_engine := "text-davinci-003";
  arg_start_template := None;
  arg_msg_template := None;
  arg_max_response_length := VInt 150;
  arg_temperature := VFloat 8 (-1);
  arg_top_p := VInt 1;
  arg_frequency_penalty := VFloat 3 (-1);
  arg_presence_penalty := VFloat 1 (-1);
  arg_n_completions_per_prompt := VInt 1;
  arg_extra_params := ∅;
|}.

Definition named (name : string) : InitArgs := {|
  arg_name := Some name;
  arg_engine := arg_engine default_args;
  arg_start_template := None;
  arg_msg_template := None;
  arg_max_response_length := arg_max_response_length default_args;
  arg_temperature := arg_temperature default_args;
  arg_top_p := arg_top_p default_args;
  arg_frequency_penalty := arg_frequency_penalty default_args;
  arg_presence_penalty := arg_presence_penalty default_args;
  arg_n_completions_per_prompt := arg_n_completions_per_prompt default_args;
  arg_extra_params := ∅;
|}.

Section Construction.
Context `{Platform}.

(** [__init__]: [dict(max_tokens=..., n=..., **extra_params)] refuses a
    keyword given twice. *)
Definition __init__ (args : InitArgs) (w : World) : (exn + OpenAIAgent) * World :=
  let agent_name := or_default (arg_name args) (upper (arg_engine args)) in
  let start_template :=
    or_default (arg_start_template args) (DEFAULT_START_TEMPLATE +:+ LF) in
  let msg_template := or_default (arg_msg_template args) DEFAULT_MSG_TEMPLATE in
  match get_available_engines with
  | inl e => (inl e, w)
  | inr engines =>
      if bool_decide (arg_engine args ∈ engines) then
        let extra := arg_extra_params args in
        match extra !! "max_tokens", extra !! "n" with
        | None, None =>
            let params : gmap string value :=
              <["engine" := VStr (arg_engine args)]>
              (<["temperature" := arg_temperature args]>
              (<["top_p" := arg_top_p args]>
              (<["frequency_penalty" := arg_frequency_penalty args]>
              (<["presence_penalty" := arg_presence_penalty args]>
              (<["max_tokens" := arg_max_response_length args]>
              (<["n" := arg_n_completions_per_prompt args]> extra)))))) in
            (inr {| _agent_name := agent_name;
                    username := None;
                    START_TEMPLATE := start_template;
                    MSG_TEMPLATE := msg_template;
                    completion_params := params;
                    _conversation__ := None;
                    conversation_start_time := utcnow_isoformat (clock w);
                    is_conversation_active := false;
                    __messages__ := [];
                    __replies__ := [] |},
             {| clock := S (clock w); requests := requests w |})
        | _, _ => (inl TypeError, w)
        end
      else (inl ValueError, w)
  end.

End Construction.

(** ** Sequences of transcript updates *)

Inductive Call :=
  | UpdateConversation (msg : string) (reply : option string)
  | SendMessage (msg : string).

Section Calls.
Context `{Platform}.

Definition run_call (c : Call) : M unit :=
  match c with
  | UpdateConversation msg reply => update_conversation msg reply
  | SendMessage msg => send_message msg
  end.

(** The states after each call of a sequence, when every call returns. *)
Fixpoint run_calls (cs : list Call) (st : State) : exn + list State :=
  match cs with
  | [] => inr []
  | c :: cs' =>
      match run_call c st with
      | (inl e, _) => inl e
      | (inr _, st') =>
          match run_calls cs' st' with
          | inl e => inl e
          | inr trace => inr (st' :: trace)
          end
      end
  end.

End Calls.

(** ** A platform to run the engine on

    [str.format] on the templates whose replacement fields are plain
    keyword names ([{name}], with the escapes [{{] and [}}]); a field with a
    conversion, a format specification or an attribute or index lookup is
    outside this fragment and is answered with [FormatValueError], which is
    not what Python does.  The engine list and the clock are fixed, and the
    completion service is a parameter. *)

Module Stub.

Fixpoint lookup_kw (k : string) (kwargs : list (string * option string))
  : option (option string) :=
  match kwargs with
  | [] => None
  | (k', v) :: rest => if String.eqb k k' then Some v else lookup_kw k rest
  end.

(** [str(v)] *)
Definition render (v : option string) : string :=
  match v with Some s => s | None => "None" end.

Definition is_digit (c : ascii) : bool :=
  let n := N_of_ascii c in ((48 <=? n) && (n <=? 57))%N.

Fixpoint all_digits (s : string) : bool :=
  match s with
  | EmptyString => true
  | String c r => is_digit c && all_digits r
  end.

Definition plain_name_char (c : ascii) : bool :=
  negb (Ascii.eqb c "!" || Ascii.eqb c ":" || Ascii.eqb c "."
        || Ascii.eqb c "[" || Ascii.eqb c "]").

Definition prepend (s : string) (r : format_error + string)
  : format_error + string :=
  match r with inl e => inl e | inr t => inr (s +:+ t) end.

Fixpoint format_text (t : string) (kwargs : list (string * option string))
  : format_error + string :=
  match t with
  | EmptyString => inr EmptyString
  | String c r =>
      if Ascii.eqb c "{" then
        match r with
        | EmptyString => inl FormatValueError
        | String c' r' =>
            if Ascii.eqb c' "{" then prepend "{" (format_text r' kwargs)
            else format_field r EmptyString kwargs
        end
      else if Ascii.eqb c "}" then
        match r with
        | EmptyString => inl FormatValueError
        | String c' r' =>
            if Ascii.eqb c' "}" then prepend "}" (format_text r' kwargs)
            else inl FormatValueError
        end
      else prepend (String c EmptyString) (format_text r kwargs)
  end
with format_field (t : string) (field : string)
    (kwargs : list (string * option string)) : format_error + string :=
  match t with
  | EmptyString => inl FormatValueError
  | String c r =>
      if Ascii.eqb c "}" then
        if all_digits field then inl FormatIndexError
        else match lookup_kw field kwargs with
             | Some v => prepend (render v) (format_text r kwargs)
             | None => inl FormatKeyError
             end
      else if Ascii.eqb c "{" || negb (plain_name_char c)
      then inl FormatValueError
      else format_field r (field +:+ String c EmptyString) kwargs
  end.

Definition engines : list string :=
  ["text-davinci-003"; "davinci"; "curie"; "babbage"; "ada"].

Definition platform (service : list Request → Request → string + list string)
  : Platform := {|
  str_format := format_text;
  available_engines := inr engines;
  completion_create := service;
  utcnow_isoformat := λ _, "2023-01-01T00:00:00";
|}.

(** Services: one that always answers with the same text, one that is
    down. *)
Definition answering (text : string) : Platform :=
  platform (λ _ _, inr [text]).
Definition failing : Platform :=
  platform (λ _ _, inl "service unavailable").

Definition boot : World := {| clock := 0; requests := [] |}.

(** The state after [OpenAIAgent(...)] in a world just booted, when the
    constructor returns. *)
Definition construct (P : Platform) (args : InitArgs) : option State :=
  match @__init__ P args boot with
  | (inr a, w) => Some {| self := a; world := w |}
  | (inl _, _) => None
  end.

(** The agent that [OpenAIAgent(name=...)] builds with every other
    argument left to its default, in the world that the constructor
    leaves (see [construct_fresh]). *)
Definition fresh (name : string) : State :=
  {| self :=
       {| _agent_name := name;
          username := None;
          START_TEMPLATE := DEFAULT_START_TEMPLATE +:+ LF;
          MSG_TEMPLATE := DEFAULT_MSG_TEMPLATE;
          completion_params :=
            <["engine" := VStr "text-davinci-003"]>
            (<["temperature" := VFloat 8 (-1)]>
            (<["top_p" := VInt 1]>
            (<["frequency_penalty" := VFloat 3 (-1)]>
            (<["presence_penalty" := VFloat 1 (-1)]>
            (<["max_tokens" := VInt 150]>
            (<["n" := VInt 1]> ∅))))));
          _conversation__ := None;
          conversation_start_time := "2023-01-01T00:00:00";
          is_conversation_active := false;
          __messages__ := [];
          __replies__ := [] |};
     world := {| clock := 1; requests := [] |} |}.

(** The default start template (with the newline that [__init__] adds)
    and the default message template, once rendered. *)
Definition greeting (n who : string) : string :=
  "The following is a conversation with an AI. The AI is helpful, apolitical, clever, and very friendly. "
  +:+ LF +:+ "The AI's name is " +:+ n +:+ " and is talking with " +:+ who
  +:+ "." +:+ LF.

Definition turn (user : option string) (n msg : string) : string :=
  render user +:+ ":" +:+ strip msg +:+ LF +:+ n +:+ ":".

(** An agent on the default templates whose name resolves to [n]. *)
Definition on_defaults (service : list Request → Request → string + list string)
    (n : string) (st : State) : Prop :=
  START_TEMPLATE (self st) = DEFAULT_START_TEMPLATE +:+ LF ∧
  MSG_TEMPLATE (self st) = DEFAULT_MSG_TEMPLATE ∧
  @name_of (platform service) (self st) = inr n.

(** The state after running a method, and what the method gave. *)
Definition after {A} (m : M A) (st : State) : State := snd (m st).
Definition outcome {A} (m : M A) (st : State) : exn + A := fst (m st).

End Stub.

(** ** The assignments of a method, taken together *)

(** The agent once [start_conversation] has made its four assignments. *)
Definition started (t now : string) (user_name : option string)
    (a : OpenAIAgent) : OpenAIAgent :=
  with_username (Some (or_default user_name "HUMAN"))
    (with_active true (with_start_time now (with_conversation (Some t) a))).

(** The agent once [update_conversation] has extended the transcript
    [c] by the prefix [p] and logged the turn. *)
Definition logged (c p msg reply : string) (a : OpenAIAgent) : OpenAIAgent :=
  let a1 := with_conversation (Some (((c +:+ p) +:+ strip reply) +:+ LF)) a in
  let a2 := with_messages (__messages__ a1 ++ [msg]) a1 in
  if truthy reply then with_replies (__replies__ a2 ++ [reply]) a2 else a2.

(** The parameters that [get_completion] sends along with a prompt. *)
Definition sent_params (kwargs : gmap string value) (a : OpenAIAgent)
  : gmap string value :=
  kwargs ∪ <["max_tokens" := default (VInt 150) (completion_params a !! "max_tokens")]>
             (completion_params a).

(** The world after a reading of the clock, and after a request. *)
Definition tick (w : World) : World :=
  {| clock := S (clock w); requests := requests w |}.

Definition asked (rq : Request) (w : World) : World :=
  {| clock := clock w; requests := requests w ++ [rq] |}.

(** What rendering a turn prefix can do to the state: nothing, or the
    lazy start of a conversation with no human name. *)
Inductive prefix_effect `{Platform} (st : State) : State → Prop :=
  | prefix_kept : prefix_effect st st
  | prefix_started n t :
      name_of (self st) = inr n →
      str_format (START_TEMPLATE (self st)) (start_kwargs n None) = inr t →
      prefix_effect st
        {| self := started t (utcnow_isoformat (clock (world st))) None (self st);
           world := tick (world st) |}.

(** ** The other methods *)

(** [set_agent_params]: the loop over the keyword arguments, in the order
    in which they were given. *)
Fixpoint set_agent_params (params : list (string * value)) : M unit :=
  match params with
  | [] => mret tt
  | (param, val) :: rest => set_agent_param param val;; set_agent_params rest
  end.

(** [str(v)] inside an f-string. *)
Definition fstring (v : option string) : string :=
  match v with Some s => s | None => "None" end.

(** The characters that stand for something else than themselves in a
    pattern of [re]. *)
Definition regex_special (c : ascii) : bool :=
  bool_decide (c ∈ [".";"^";"$";"*";"+";"?";"{";"}";"[";"]";"\";"|";"(";")"]%char).

Fixpoint regex_literal (pattern : string) : bool :=
  match pattern with
  | EmptyString => true
  | String c r => negb (regex_special c) && regex_literal r
  end.

(** [len(re.findall(pattern, s))] for a pattern without special
    characters: the scan goes from left to right, and after a match it
    resumes behind the match; [skip] counts the characters of the last
    match that are still to be passed. *)
Fixpoint count_matches (pattern s : string) (skip : nat) : nat :=
  match s with
  | EmptyString => 0
  | String _ r =>
      match skip with
      | S k => count_matches pattern r k
      | O =>
          if String.prefix pattern s
          then S (count_matches pattern r (String.length pattern - 1))
          else count_matches pattern r 0
      end
  end.

(** [__len__], on the human names that are plain text to [re]; another
    name makes the pattern a regular expression proper, which is not
    modelled ([None]). *)
Definition __len__ (a : OpenAIAgent) : option nat :=
  let pattern := fstring (username a) +:+ ":" in
  if regex_literal pattern
  then Some (count_matches pattern (or_default (_conversation__ a) "") 0)
  else None.

(** ** Sequences of calls on one agent *)

Inductive Op :=
  | OpStartConversation (user_name : option string)
  | OpSetConversation (conversation : string)
  | OpAddToConversation (text : string)
  | OpMakeChatPrompt (msg : string) (user_name : option string) (cont : bool)
  | OpGetCompletion (prompt : string) (stop : option (list string))
      (kwargs : gmap string value)
  | OpGetSingleReply (msg : string) (max_response_length : value)
      (user_name : option string)
  | OpGetReply (msg : option string) (max_response_length : value)
  | OpSendMessage (msg : string)
  | OpUpdateConversation (msg : string) (reply : option string)
  | OpSetAgentParam (param : string) (val : value)
  | OpSetAgentParams (params : list (string * value)).

(** Whether the call is one of the two setters of generation parameters. *)
Definition sets_params (op : Op) : bool :=
  match op with
  | OpSetAgentParam _ _ | OpSetAgentParams _ => true
  | _ => false
  end.


Section Ops.
Context `{Platform}.

(** The state that a call leaves, whether it returns or raises: the caller
    that catches the exception goes on with the same object. *)
Definition run_op (op : Op) (st : State) : State :=
  match op with
  | OpStartConversation u => snd (start_conversation u st)
  | OpSetConversation c => snd (set_conversation c st)
  | OpAddToConversation s => snd (add_to_conversation s st)
  | OpMakeChatPrompt m u cont => snd (make_chat_prompt m u cont st)
  | OpGetCompletion p stop kw => snd (get_completion p stop kw st)
  | OpGetSingleReply m mrl u => snd (get_single_reply m mrl u st)
  | OpGetReply m mrl => snd (get_reply m mrl st)
  | OpSendMessage m => snd (send_message m st)
  | OpUpdateConversation m r => snd (update_conversation m r st)
  | OpSetAgentParam k v => snd (set_agent_param k v st)
  | OpSetAgentParams kvs => snd (set_agent_params kvs st)
  end.

Definition run_ops (ops : list Op) (st : State) : State :=
  foldl (λ st op, run_op op st) st ops.

(** The states that a program can reach with the methods above, starting
    from a constructed agent. *)
Inductive reachable : State → Prop :=
  | reachable_init args w a w' :
      __init__ args w = (inr a, w') →
      reachable {| self := a; world := w' |}
  | reachable_step st op :
      reachable st → reachable (run_op op st).

End Ops.

(** What a history of calls may have changed: the identity of the agent
    is kept, the logs and the list of requests have only been extended, and
    an active conversation has stayed active. *)
Definition evolves (st st' : State) : Prop :=
  _agent_name (self st') = _agent_name (self st) ∧
  START_TEMPLATE (self st') = START_TEMPLATE (self st) ∧
  MSG_TEMPLATE (self st') = MSG_TEMPLATE (self st) ∧
  __messages__ (self st) `prefix_of` __messages__ (self st') ∧
  __replies__ (self st) `prefix_of` __replies__ (self st') ∧
  requests (world st) `prefix_of` requests (world st') ∧
  (is_conversation_active (self st) = true →
   is_conversation_active (self st') = true).

(** The shape of the states that the methods keep: a conversation is
    active exactly when a human name is on record, that name is not empty,
    an active conversation has a transcript, and no reply was logged
    without its message. *)
Definition consistent (a : OpenAIAgent) : Prop :=
  (is_conversation_active a = true →
   ∃ h t, username a = Some h ∧ h ≠ "" ∧ _conversation__ a = Some t) ∧
  (is_conversation_active a = false → username a = None) ∧
  length (__replies__ a) ≤ length (__messages__ a).

(** The message and the reply that a transcript update logs. *)
Definition call_msg (c : Call) : string :=
  match c with
  | UpdateConversation msg _ | SendMessage msg => msg
  end.

Definition call_reply (c : Call) : option string :=
  match c with
  | UpdateConversation _ reply =>
      if truthy (or_default reply "") then Some (or_default reply "") else None
  | SendMessage _ => None
  end.

(** * Properties *)

(** ** Strings *)

Lemma append_assoc (a b c : string) : (a +:+ b) +:+ c = a +:+ (b +:+ c).
Proof.
  induction a as [|x a IH]; [reflexivity|].
  change (String x ((a +:+ b) +:+ c) = String x (a +:+ (b +:+ c))).
  by rewrite IH.
Qed.

Lemma append_empty_r (a b : string) : a +:+ b = EmptyString → b = EmptyString.
Proof. destruct a; [done|]. intros Hab. inversion Hab. Qed.

Lemma or_default_empty (s : string) : or_default (Some s) "" = s.
Proof. by destruct s. Qed.

Example strip_reply :
  sub_trailing_newlines (strip ("  hello there!" +:+ LF +:+ LF +:+ LF)) = "hello there!".
Proof. vm_compute. reflexivity. Qed.

Example strip_keeps_inner_space :
  strip (" a" +:+ LF +:+ " b ") = "a" +:+ LF +:+ " b".
Proof. vm_compute. reflexivity. Qed.

Example upper_engine : upper "text-davinci-003" = "TEXT-DAVINCI-003".
Proof. vm_compute. reflexivity. Qed.

Lemma string_differ (a b : string) : String.eqb a b = false → a ≠ b.
Proof. apply String.eqb_neq. Qed.

Lemma some_string_differ (a b : string) :
  String.eqb a b = false → Some a ≠ Some b.
Proof. intros Hne [= Heq]. by apply string_differ in Hne. Qed.

Lemma proper_prefix_append (a b : string) :
  b ≠ EmptyString → proper_prefix a (a +:+ b).
Proof. intros Hb. by exists b. Qed.

Lemma proper_prefix_startswith (a b : string) :
  proper_prefix a b → startswith b a = true ∧ a ≠ b.
Proof.
  intros (tail & Htail & ->). split.
  - unfold startswith. induction a as [|x a IH]; [by destruct tail|].
    change (String x a +:+ tail) with (String x (a +:+ tail)). simpl.
    destruct (Ascii.ascii_dec x x); [exact IH|done].
  - intros Heq. apply Htail.
    apply (inj (String.append a)). rewrite <- Heq.
    clear. induction a as [|x a IH]; [done|].
    change (String x a +:+ "") with (String x (a +:+ "")). by rewrite <- IH.
Qed.

(** ** How each method runs *)

Section Runs.
Context `{Platform}.

Lemma name_run st : name st = (name_of (self st), st).
Proof. reflexivity. Qed.

Lemma conversation_run st : conversation st = (inr (conversation_of (self st)), st).
Proof. reflexivity. Qed.

Lemma start_conversation_run user_name st :
  start_conversation user_name st =
  match name_of (self st) with
  | inl e => (inl e, st)
  | inr n =>
      match str_format (START_TEMPLATE (self st)) (start_kwargs n user_name) with
      | inl e => (inl (exn_of_format e), st)
      | inr t =>
          (inr tt,
           {| self := started t (utcnow_isoformat (clock (world st)))
                        user_name (self st);
              world := tick (world st) |})
      end
  end.
Proof.
  unfold start_conversation, mbind, M_bind, format, start_kwargs. simpl.
  unfold lift. destruct (name_of (self st)) as [e|n]; [done|].
  destruct (str_format _ _) as [e|t]; done.
Qed.

(** The name of the agent only depends on attributes that no method of
    the conversation assigns. *)
Lemma name_of_started t now u a : name_of (started t now u a) = name_of a.
Proof. reflexivity. Qed.

Lemma make_chat_prompt_run msg user cont st :
  make_chat_prompt msg user cont st =
  let user' := or_else user (username (self st)) in
  let render st' :=
    match name_of (self st') with
    | inl e => (inl e, st')
    | inr n =>
        match str_format (MSG_TEMPLATE (self st')) (turn_kwargs user' n msg) with
        | inl e => (inl (exn_of_format e), st')
        | inr p => (inr p, st')
        end
    end in
  if negb (is_conversation_active (self st)) || negb cont then
    match start_conversation None st with
    | (inl e, st') => (inl e, st')
    | (inr _, st') => render st'
    end
  else render st.
Proof.
  unfold make_chat_prompt, mbind, M_bind, format, turn_kwargs. simpl.
  destruct (negb (is_conversation_active (self st)) || negb cont).
  - destruct (start_conversation None st) as [[e|[]] st']; [done|].
    unfold lift. destruct (name_of (self st')) as [e|n]; [done|].
    destruct (str_format _ _); done.
  - unfold mret, M_ret, lift. destruct (name_of (self st)) as [e|n]; [done|].
    destruct (str_format _ _); done.
Qed.

Lemma update_conversation_run msg reply st :
  update_conversation msg reply st =
  match make_chat_prompt msg None true st with
  | (inl e, st') => (inl e, st')
  | (inr p, st') =>
      (inr tt,
       {| self := logged (conversation_of (self st)) p msg
                    (or_default reply "") (self st');
          world := world st' |})
  end.
Proof.
  unfold update_conversation, mbind, M_bind, logged. simpl.
  destruct (make_chat_prompt msg None true st) as [[e|p] st']; [done|].
  simpl. destruct (truthy (or_default reply "")); done.
Qed.

Lemma get_completion_run prompt stop kwargs st :
  get_completion prompt stop kwargs st =
  let params := sent_params kwargs (self st) in
  match params !! "prompt", params !! "stop" with
  | None, None =>
      let rq := {| req_prompt := prompt; req_params := params; req_stop := stop |} in
      let st' := {| self := self st; world := asked rq (world st) |} in
      match completion_create (requests (world st)) rq with
      | inl detail => (inl (ProviderError detail), st')
      | inr choices => (inr choices, st')
      end
  | _, _ => (inl TypeError, st)
  end.
Proof.
  unfold get_completion, mbind, M_bind, sent_params. simpl.
  destruct (_ !! "prompt"); [done|]. destruct (_ !! "stop"); [done|].
  simpl. destruct (completion_create _ _); done.
Qed.

Lemma reply_prompt_run msg st :
  reply_prompt msg st =
  match or_else msg None with
  | Some m =>
      match make_chat_prompt m None true st with
      | (inl e, st') => (inl e, st')
      | (inr p, st') => (inr (p, m), st')
      end
  | None => (inr (conversation_of (self st), ""), st)
  end.
Proof.
  unfold reply_prompt. destruct (or_else msg None) as [m|]; [|done].
  unfold mbind, M_bind. by destruct (make_chat_prompt m None true st) as [[e|p] st'].
Qed.

Lemma get_reply_run msg mrl st :
  get_reply msg mrl st =
  match reply_prompt msg st with
  | (inl e, st1) => (inl e, st1)
  | (inr (prompt, m), st1) =>
      match name_of (self st1) with
      | inl e => (inl e, st1)
      | inr n =>
          match get_completion (conversation_of (self st1) +:+ prompt)
                  (Some [or_default (username (self st1)) "HUMAN" +:+ ":"; n +:+ ":"])
                  {["max_tokens" := value_or mrl
                      (default VNone (completion_params (self st1) !! "max_tokens"))]}
                  st1 with
          | (inl e, st2) => (inl e, st2)
          | (inr [], st2) => (inl IndexError, st2)
          | (inr (text :: _), st2) =>
              let reply_txt := sub_trailing_newlines (strip text) in
              match update_conversation m (Some reply_txt) st2 with
              | (inl e, st3) => (inl e, st3)
              | (inr _, st3) => (inr reply_txt, st3)
              end
          end
      end
  end.
Proof.
  unfold get_reply. unfold mbind at 1, M_bind at 1.
  destruct (reply_prompt msg st) as [[e|[prompt m]] st1]; [done|].
  unfold mbind, M_bind, max_tokens_arg. simpl. unfold lift.
  destruct (name_of (self st1)) as [e|n]; [done|].
  destruct (get_completion _ _ _ st1) as [[e|[|text choices]] st2]; [done..|].
  simpl. by destruct (update_conversation m _ st2) as [[e|[]] st3].
Qed.

Lemma get_single_reply_run msg mrl user_name st :
  get_single_reply msg mrl user_name st =
  match make_chat_prompt msg None false st with
  | (inl e, st1) => (inl e, st1)
  | (inr new_prompt, st1) =>
      match or_else user_name (username (self st)) with
      | None => (inl TypeError, st1)
      | Some u =>
          match name_of (self st1) with
          | inl e => (inl e, st1)
          | inr n =>
              match get_completion new_prompt (Some [u +:+ ":"; n +:+ ":"])
                      {["max_tokens" := value_or mrl
                          (default VNone (completion_params (self st1) !! "max_tokens"))]}
                      st1 with
              | (inl e, st2) => (inl e, st2)
              | (inr [], st2) => (inl IndexError, st2)
              | (inr (text :: _), st2) => (inr text, st2)
              end
          end
      end
  end.
Proof.
  unfold get_single_reply. unfold mbind at 1, M_bind at 1, get_self at 1.
  unfold mbind at 1, M_bind at 1.
  destruct (make_chat_prompt msg None false st) as [[e|new_prompt] st1]; [done|].
  unfold mbind, M_bind, max_tokens_arg. simpl.
  destruct (or_else user_name (username (self st))) as [u|]; [|done].
  simpl. unfold lift. destruct (name_of (self st1)) as [e|n]; [done|].
  by destruct (get_completion _ _ _ st1) as [[e|[|text choices]] st2].
Qed.

End Runs.

(** ** What a turn prefix changes *)

Section Prefix.
Context `{Platform}.

Lemma name_of_not_provider a detail : name_of a ≠ inl (ProviderError detail).
Proof.
  unfold name_of, get_available_engines, engine_of.
  destruct available_engines; [done|]. case_bool_decide; [|done].
  destruct (completion_params a !! "engine") as [[]|]; done.
Qed.

Lemma exn_of_format_not_provider e detail : exn_of_format e ≠ ProviderError detail.
Proof. by destruct e. Qed.

Lemma make_chat_prompt_effect msg user cont st :
  prefix_effect st (snd (make_chat_prompt msg user cont st)).
Proof.
  rewrite make_chat_prompt_run. cbv zeta.
  destruct (negb _ || negb cont).
  - rewrite start_conversation_run.
    destruct (name_of (self st)) as [e|n] eqn:Hn; [constructor|].
    destruct (str_format (START_TEMPLATE _) _) as [e|t] eqn:Ht; [constructor|].
    cbn [self]. rewrite name_of_started, Hn.
    destruct (str_format (MSG_TEMPLATE _) _); by econstructor.
  - destruct (name_of (self st)); [constructor|].
    destruct (str_format _ _); constructor.
Qed.

Lemma make_chat_prompt_frame msg user cont st res st' :
  make_chat_prompt msg user cont st = (res, st') → prefix_effect st st'.
Proof.
  intros Hrun. pose proof (make_chat_prompt_effect msg user cont st) as Heff.
  by rewrite Hrun in Heff.
Qed.

Lemma make_chat_prompt_active msg user st :
  is_conversation_active (self st) = true →
  snd (make_chat_prompt msg user true st) = st.
Proof.
  intros Hact. rewrite make_chat_prompt_run, Hact. simpl.
  destruct (name_of (self st)); [done|]. by destruct (str_format _ _).
Qed.

Lemma make_chat_prompt_not_provider msg user cont st detail :
  fst (make_chat_prompt msg user cont st) ≠ inl (ProviderError detail).
Proof.
  rewrite make_chat_prompt_run. cbv zeta.
  assert (∀ st', fst match name_of (self st') with
                     | inl e => (inl e, st')
                     | inr n =>
                         match str_format (MSG_TEMPLATE (self st'))
                                 (turn_kwargs (or_else user (username (self st))) n msg) with
                         | inl e => (inl (exn_of_format e), st')
                         | inr p => (inr p, st')
                         end
                     end ≠ inl (ProviderError detail)) as Hrender.
  { intros st'. destruct (name_of (self st')) as [e|n] eqn:Hn.
    - simpl. intros [= ->]. by apply name_of_not_provider in Hn.
    - destruct (str_format _ _); simpl; [|done].
      intros [= He]. by apply exn_of_format_not_provider in He. }
  destruct (negb _ || negb cont); [|apply Hrender].
  rewrite start_conversation_run.
  destruct (name_of (self st)) as [e|n] eqn:Hn.
  { simpl. intros [= ->]. by apply name_of_not_provider in Hn. }
  destruct (str_format (START_TEMPLATE _) _) as [e|t].
  { simpl. intros [= He]. by apply exn_of_format_not_provider in He. }
  apply Hrender.
Qed.

(** A prefix that is returned was rendered from the message template with
    the human name resolved on entry, after a lazy start when the
    conversation was not active or was not to be continued. *)
Lemma make_chat_prompt_returns msg user cont st p st' :
  make_chat_prompt msg user cont st = (inr p, st') →
  ∃ n, name_of (self st) = inr n ∧
    str_format (MSG_TEMPLATE (self st))
      (turn_kwargs (or_else user (username (self st))) n msg) = inr p ∧
    if negb (is_conversation_active (self st)) || negb cont then
      ∃ t, str_format (START_TEMPLATE (self st)) (start_kwargs n None) = inr t ∧
        st' = {| self := started t (utcnow_isoformat (clock (world st))) None (self st);
                 world := tick (world st) |}
    else st' = st.
Proof.
  rewrite make_chat_prompt_run. cbv zeta.
  destruct (negb _ || negb cont).
  - rewrite start_conversation_run.
    destruct (name_of (self st)) as [e|n] eqn:Hn; [done|].
    destruct (str_format (START_TEMPLATE _) _) as [e|t] eqn:Ht; [done|].
    cbn [self]. rewrite name_of_started, Hn.
    change (MSG_TEMPLATE (started _ _ _ (self st))) with (MSG_TEMPLATE (self st)).
    destruct (str_format (MSG_TEMPLATE _) _) as [e|q] eqn:Hq; [done|].
    intros [= <- <-]. exists n. eauto.
  - destruct (name_of (self st)) as [e|n] eqn:Hn; [done|].
    destruct (str_format (MSG_TEMPLATE _) _) as [e|q] eqn:Hq; [done|].
    intros [= <- <-]. exists n. eauto.
Qed.

(** The lazy start leaves the configuration, the logs and the list of
    requests alone, and never deactivates a conversation. *)
Lemma prefix_effect_frame st st' :
  prefix_effect st st' →
  __messages__ (self st') = __messages__ (self st) ∧
  __replies__ (self st') = __replies__ (self st) ∧
  requests (world st') = requests (world st) ∧
  name_of (self st') = name_of (self st) ∧
  START_TEMPLATE (self st') = START_TEMPLATE (self st) ∧
  MSG_TEMPLATE (self st') = MSG_TEMPLATE (self st) ∧
  completion_params (self st') = completion_params (self st) ∧
  (is_conversation_active (self st) = true →
   is_conversation_active (self st') = true).
Proof. intros [|n t Hn Ht]; repeat split; done. Qed.

End Prefix.

(** ** What a call to the service changes *)

Section Service.
Context `{Platform}.

(** [get_completion] never assigns an attribute; it either refuses the
    parameters without calling the service, or logs exactly one request
    carrying the prompt and the stop sequences it was given. *)
Lemma get_completion_outcome prompt stop kwargs st res st' :
  get_completion prompt stop kwargs st = (res, st') →
  self st' = self st ∧
  ((res = inl TypeError ∧ st' = st) ∨
   ∃ rq, req_prompt rq = prompt ∧ req_stop rq = stop ∧
     world st' = asked rq (world st) ∧
     res = match completion_create (requests (world st)) rq with
           | inl detail => inl (ProviderError detail)
           | inr choices => inr choices
           end).
Proof.
  rewrite get_completion_run. cbv zeta.
  destruct (_ !! "prompt"); [intros [= <- <-]; auto|].
  destruct (_ !! "stop"); [intros [= <- <-]; auto|].
  destruct (completion_create _ _) eqn:Hc; intros [= <- <-]; (split; [done|]);
    right; eexists; cbn [req_prompt req_stop world]; rewrite Hc; done.
Qed.

Lemma asked_requests rq w : requests (asked rq w) = requests w ++ [rq].
Proof. reflexivity. Qed.

Lemma app_singleton_inv {A} (l : list A) (x y : A) :
  l ++ [x] = l ++ [y] → x = y.
Proof. intros Heq. apply (inj (app l)) in Heq. by injection Heq. Qed.

Lemma app_singleton_neq {A} (l : list A) (x : A) : l ≠ l ++ [x].
Proof.
  intros Heq. apply (f_equal length) in Heq.
  rewrite length_app in Heq. simpl in Heq. lia.
Qed.

End Service.

(** ** The claims about single operations *)

Section Operations.
Context `{Platform}.

(** C9: for every state and every string, [add_to_conversation] raises
    [AttributeError], because a Python string has no [append], and the
    whole state, transcript included, is left as it was; the operation
    never succeeds. *)
Theorem add_to_conversation_raises (st : State) (s : string) :
  add_to_conversation s st = (inl AttributeError, st).
Proof. reflexivity. Qed.

(** C4, as amended: when the conversation is inactive or is not to be
    continued, a [make_chat_prompt] that returns has first started a
    conversation with no human name, whatever name it was given: the
    transcript is the start template rendered with "a human", the
    conversation is active and the recorded human name is "HUMAN"; the
    name given (or, failing that, the one recorded on entry) only labels
    the returned prefix. *)
Theorem make_chat_prompt_starts_without_name
    (st : State) (msg : string) (user : option string) (cont : bool)
    (p : string) (st' : State) :
  is_conversation_active (self st) = false ∨ cont = false →
  make_chat_prompt msg user cont st = (inr p, st') →
  ∃ n t,
    name_of (self st) = inr n ∧
    str_format (START_TEMPLATE (self st))
      [("AGENT_NAME", Some n); ("USERNAME", Some "a human")] = inr t ∧
    _conversation__ (self st') = Some t ∧
    is_conversation_active (self st') = true ∧
    username (self st') = Some "HUMAN" ∧
    str_format (MSG_TEMPLATE (self st))
      [("user_name", or_else user (username (self st)));
       ("AGENT_NAME", Some n); ("MSG", Some (strip msg))] = inr p.
Proof.
  intros Hlazy Hrun.
  apply make_chat_prompt_returns in Hrun as (n & Hn & Hp & Hst).
  assert (negb (is_conversation_active (self st)) || negb cont = true) as Hb.
  { destruct Hlazy as [-> | ->]; [done|]. apply orb_true_r. }
  rewrite Hb in Hst. destruct Hst as (t & Ht & ->).
  exists n, t. repeat split; done.
Qed.

(** C10: when no conversation has recorded a human name and none is
    given, a [get_single_reply] whose start and message templates render
    raises [TypeError] while it builds the stop sequences; by then it has
    replaced the transcript by the rendered start template and recorded
    the default name "HUMAN", which it does not use, and the service has
    not been called. *)
Theorem get_single_reply_without_name
    (st : State) (msg : string) (mrl : value) (n t p : string) :
  username (self st) = None →
  name_of (self st) = inr n →
  str_format (START_TEMPLATE (self st))
    [("AGENT_NAME", Some n); ("USERNAME", Some "a human")] = inr t →
  str_format (MSG_TEMPLATE (self st))
    [("user_name", None); ("AGENT_NAME", Some n); ("MSG", Some (strip msg))] = inr p →
  ∃ st',
    get_single_reply msg mrl None st = (inl TypeError, st') ∧
    _conversation__ (self st') = Some t ∧
    username (self st') = Some "HUMAN" ∧
    requests (world st') = requests (world st).
Proof.
  intros Hu Hn Ht Hp.
  rewrite get_single_reply_run, make_chat_prompt_run, start_conversation_run.
  cbv zeta. rewrite orb_true_r, Hn.
  change (start_kwargs n None)
    with [("AGENT_NAME", Some n); ("USERNAME", Some "a human")].
  rewrite Ht. cbn [self]. rewrite name_of_started, Hn.
  change (MSG_TEMPLATE (started _ _ _ (self st))) with (MSG_TEMPLATE (self st)).
  rewrite Hu. change (or_else None None) with (@None string).
  unfold turn_kwargs. rewrite Hp. eexists. repeat split; done.
Qed.

(** C5, as amended: [get_single_reply] never touches the message log or
    the reply log and appends nothing to the transcript, but it restarts
    the conversation: when it returns, the transcript has been replaced
    by the start template rendered with "a human", the recorded human
    name is "HUMAN", and the value returned is the text of the first
    choice of the one request it made, as the service gave it. *)
Theorem get_single_reply_restarts
    (st : State) (msg : string) (mrl : value) (user : option string)
    (res : exn + string) (st' : State) :
  get_single_reply msg mrl user st = (res, st') →
  __messages__ (self st') = __messages__ (self st) ∧
  __replies__ (self st') = __replies__ (self st) ∧
  ∀ text, res = inr text →
    ∃ n t rq choices,
      name_of (self st) = inr n ∧
      str_format (START_TEMPLATE (self st))
        [("AGENT_NAME", Some n); ("USERNAME", Some "a human")] = inr t ∧
      _conversation__ (self st') = Some t ∧
      username (self st') = Some "HUMAN" ∧
      requests (world st') = requests (world st) ++ [rq] ∧
      completion_create (requests (world st)) rq = inr (text :: choices).
Proof.
  rewrite get_single_reply_run.
  pose proof (make_chat_prompt_effect msg None false st) as Heff.
  destruct (make_chat_prompt msg None false st) as [[e|q] st1] eqn:Hq.
  { intros [= <- <-].
    apply prefix_effect_frame in Heff as (Hm & Hr & _). by repeat split. }
  cbn [snd] in Heff. apply prefix_effect_frame in Heff as (Hm & Hr & Hrq & _).
  destruct (or_else user (username (self st))) as [u|];
    [|intros [= <- <-]; by repeat split].
  destruct (name_of (self st1)) as [e|n1]; [intros [= <- <-]; by repeat split|].
  destruct (get_completion _ _ _ st1) as [r2 st2] eqn:Hc.
  apply get_completion_outcome in Hc as [Hself Hc].
  intros Hres.
  assert (st' = st2) as ->.
  { destruct r2 as [e|[|x l]]; by injection Hres. }
  rewrite Hself. split; [done|]. split; [done|].
  intros text ->.
  destruct r2 as [e|[|x l]]; [done..|]. injection Hres as ->.
  destruct Hc as [[? _]|(rq & _ & _ & Hw & Hans)]; [done|].
  apply make_chat_prompt_returns in Hq as (n & Hn & _ & Hst1).
  rewrite orb_true_r in Hst1. destruct Hst1 as (t & Ht & ->).
  exists n, t, rq, l. rewrite Hw.
  destruct (completion_create _ rq) as [d|choices] eqn:Hcc; [done|].
  injection Hans as <-. repeat split; done.
Qed.

End Operations.

(** ** What a transcript update changes *)

Section Update.
Context `{Platform}.

Lemma conversation_of_logged c p msg reply a :
  conversation_of (logged c p msg reply a) = ((c +:+ p) +:+ strip reply) +:+ LF.
Proof.
  unfold logged, conversation_of. cbv zeta.
  destruct (truthy reply); cbn [_conversation__ with_replies with_messages
    with_conversation]; apply or_default_empty.
Qed.

Lemma messages_logged c p msg reply a :
  __messages__ (logged c p msg reply a) = __messages__ a ++ [msg].
Proof. unfold logged. cbv zeta. by destruct (truthy reply). Qed.

Lemma replies_logged c p msg reply a :
  __replies__ (logged c p msg reply a) =
  if truthy reply then __replies__ a ++ [reply] else __replies__ a.
Proof. unfold logged. cbv zeta. by destruct (truthy reply). Qed.

Lemma update_conversation_returns msg reply st st' :
  update_conversation msg reply st = (inr tt, st') →
  ∃ p st1,
    make_chat_prompt msg None true st = (inr p, st1) ∧
    st' = {| self := logged (conversation_of (self st)) p msg
                       (or_default reply "") (self st1);
             world := world st1 |}.
Proof.
  rewrite update_conversation_run.
  destruct (make_chat_prompt msg None true st) as [[e|p] st1]; [done|].
  intros [= <-]. eauto.
Qed.

Lemma update_conversation_raises msg reply st e st' :
  update_conversation msg reply st = (inl e, st') →
  make_chat_prompt msg None true st = (inl e, st').
Proof.
  rewrite update_conversation_run.
  destruct (make_chat_prompt msg None true st) as [[e1|p] st1]; [|done].
  by intros [= -> ->].
Qed.

(** One update that returns extends the transcript it found by the
    rendered prefix, the stripped reply and a newline, and logs the
    message, and the reply when there is one. *)
Lemma update_conversation_appends msg reply st st' :
  update_conversation msg reply st = (inr tt, st') →
  (∃ p, conversation_of (self st') =
          ((conversation_of (self st) +:+ p) +:+ strip (or_default reply "")) +:+ LF) ∧
  __messages__ (self st') = __messages__ (self st) ++ [msg] ∧
  __replies__ (self st') =
    (if truthy (or_default reply "")
     then __replies__ (self st) ++ [or_default reply ""]
     else __replies__ (self st)).
Proof.
  intros (p & st1 & Hp & ->)%update_conversation_returns.
  pose proof (make_chat_prompt_effect msg None true st) as Heff.
  rewrite Hp in Heff. cbn [snd] in Heff.
  apply prefix_effect_frame in Heff as (Hm & Hr & _).
  cbn [self]. rewrite conversation_of_logged, messages_logged, replies_logged, Hm, Hr.
  eauto.
Qed.

Lemma run_call_extends c st st' :
  run_call c st = (inr tt, st') →
  proper_prefix (conversation_of (self st)) (conversation_of (self st')).
Proof.
  intros Hrun.
  assert (∃ msg reply, update_conversation msg reply st = (inr tt, st'))
    as (msg & reply & Hup) by (destruct c; simpl in Hrun; eauto).
  apply update_conversation_appends in Hup as ((p & ->) & _).
  rewrite !append_assoc. apply proper_prefix_append.
  intros Hempty. by do 2 apply append_empty_r in Hempty.
Qed.

(** C6: along any sequence of [update_conversation] and [send_message]
    calls that return, from any state and for any messages and replies,
    the transcript after each call is a proper prefix of the transcript
    after the next one. *)
Theorem transcript_append_only (cs : list Call) (st : State) (trace : list State) :
  run_calls cs st = inr trace →
  ∀ k before after,
    (st :: trace) !! k = Some before →
    (st :: trace) !! S k = Some after →
    proper_prefix (conversation_of (self before)) (conversation_of (self after)).
Proof.
  revert st trace. induction cs as [|c cs IH]; intros st trace Hrun k before after.
  { injection Hrun as <-. by destruct k. }
  simpl in Hrun.
  destruct (run_call c st) as [[e|[]] st1] eqn:Hc; [done|].
  destruct (run_calls cs st1) as [e|trace1] eqn:Hcs; [done|].
  injection Hrun as <-.
  destruct k as [|k].
  - intros [= <-] [= <-]. by apply (run_call_extends c).
  - apply (IH st1 trace1 Hcs k).
Qed.

End Update.

(** ** Replies *)

Section Reply.
Context `{Platform}.

Lemma or_else_none_default (msg : option string) :
  or_default msg "" = match or_else msg None with Some m => m | None => "" end.
Proof. by destruct msg as [[|c m]|]. Qed.

(** The first phase of [get_reply]: at most a lazy start, never a call to
    the service, and the message to log is the one given, or [""]. *)
Lemma reply_prompt_outcome msg st res st1 :
  reply_prompt msg st = (res, st1) →
  prefix_effect st st1 ∧
  (∀ detail, res ≠ inl (ProviderError detail)) ∧
  (∀ p m, res = inr (p, m) → m = or_default msg "") ∧
  (is_conversation_active (self st) = true ∨ or_else msg None = None → st1 = st).
Proof.
  rewrite reply_prompt_run, or_else_none_default.
  destruct (or_else msg None) as [m|].
  - pose proof (make_chat_prompt_effect m None true st) as Heff.
    pose proof (make_chat_prompt_not_provider m None true st) as Hnp.
    pose proof (make_chat_prompt_active m None st) as Hact.
    destruct (make_chat_prompt m None true st) as [[e|p] st0];
      intros [= <- <-]; cbn [fst snd] in *; (split; [done|]).
    + split; [intros d [= ->]; by apply (Hnp d)|]. split; [done|].
      intros [Ha|]; [auto|done].
    + split; [done|]. split; [by intros ? ? [= _ <-]|].
      intros [Ha|]; [auto|done].
  - intros [= <- <-]. split; [constructor|]. split; [done|].
    split; [by intros ? ? [= _ <-]|done].
Qed.

(** The request that [get_reply] sends, when it sends one: the prompt is
    the transcript at that moment followed by what the first phase
    computed, and the stop sequences are the labels of the human name on
    record at that moment and of the agent. *)
Lemma get_reply_request msg mrl st res st' rq :
  get_reply msg mrl st = (res, st') →
  requests (world st') = requests (world st) ++ [rq] →
  ∃ p m st1 n,
    reply_prompt msg st = (inr (p, m), st1) ∧
    name_of (self st1) = inr n ∧
    req_prompt rq = conversation_of (self st1) +:+ p ∧
    req_stop rq = Some [or_default (username (self st1)) "HUMAN" +:+ ":"; n +:+ ":"].
Proof.
  rewrite get_reply_run.
  destruct (reply_prompt msg st) as [r1 st1] eqn:H1.
  pose proof H1 as (Heff & _)%reply_prompt_outcome.
  apply prefix_effect_frame in Heff as (_ & _ & Hrq1 & _).
  destruct r1 as [e|[p m]].
  { intros [= <- <-] Hlog. rewrite Hrq1 in Hlog. by apply app_singleton_neq in Hlog. }
  destruct (name_of (self st1)) as [e|n] eqn:Hn.
  { intros [= <- <-] Hlog. rewrite Hrq1 in Hlog. by apply app_singleton_neq in Hlog. }
  destruct (get_completion _ _ _ st1) as [r2 st2] eqn:H2.
  apply get_completion_outcome in H2 as [Hself H2].
  intros Hrun Hlog.
  assert (requests (world st') = requests (world st2)) as Hrq3.
  { destruct r2 as [e|[|text choices]]; [by injection Hrun as <- <-..|].
    cbv zeta in Hrun.
    destruct (update_conversation m _ st2) as [[e|[]] st3] eqn:H3.
    - injection Hrun as <- <-.
      apply update_conversation_raises, make_chat_prompt_frame in H3.
      by apply prefix_effect_frame in H3 as (_ & _ & -> & _).
    - injection Hrun as <- <-.
      apply update_conversation_returns in H3 as (q & st2' & Hq & ->).
      apply make_chat_prompt_frame in Hq. cbn [world].
      by apply prefix_effect_frame in Hq as (_ & _ & -> & _). }
  rewrite Hrq3, <- Hrq1 in Hlog.
  destruct H2 as [[_ ->]|(rq0 & Hp & Hs & Hw & _)].
  { by apply app_singleton_neq in Hlog. }
  rewrite Hw, asked_requests in Hlog. apply app_singleton_inv in Hlog as <-.
  exists p, m, st1, n. by rewrite Hp, Hs.
Qed.

(** A [get_reply] that returns has called [update_conversation] with the
    message to log and the value it returns, on the agent as the first
    phase left it. *)
Lemma get_reply_returns msg mrl st reply st' :
  get_reply msg mrl st = (inr reply, st') →
  ∃ p st1 st2,
    reply_prompt msg st = (inr (p, or_default msg ""), st1) ∧
    self st2 = self st1 ∧
    update_conversation (or_default msg "") (Some reply) st2 = (inr tt, st').
Proof.
  rewrite get_reply_run.
  destruct (reply_prompt msg st) as [[e|[p m]] st1] eqn:H1; [done|].
  pose proof H1 as (_ & _ & Hm & _)%reply_prompt_outcome.
  rewrite (Hm p m eq_refl) in *.
  destruct (name_of (self st1)) as [e|n]; [done|].
  destruct (get_completion _ _ _ st1) as [[e|[|text choices]] st2] eqn:H2; [done..|].
  apply get_completion_outcome in H2 as [Hself _]. cbv zeta.
  destruct (update_conversation _ _ st2) as [[e|[]] st3] eqn:H3; [done|].
  intros [= <- <-]. eauto 6.
Qed.

(** A [ProviderError] out of [get_reply] comes from the service: the
    agent is then as the first phase left it. *)
Lemma get_reply_provider_error msg mrl st detail st' :
  get_reply msg mrl st = (inl (ProviderError detail), st') →
  ∃ p m st1, reply_prompt msg st = (inr (p, m), st1) ∧ self st' = self st1.
Proof.
  rewrite get_reply_run.
  destruct (reply_prompt msg st) as [[e|[p m]] st1] eqn:H1.
  { apply reply_prompt_outcome in H1 as (_ & Hnp & _).
    intros [= -> _]. by destruct (Hnp detail). }
  destruct (name_of (self st1)) as [e|n] eqn:Hn.
  { intros [= -> _]. by apply name_of_not_provider in Hn. }
  destruct (get_completion _ _ _ st1) as [r2 st2] eqn:H2.
  apply get_completion_outcome in H2 as [Hself _].
  destruct r2 as [e|[|text choices]]; [intros [= _ <-]; eauto|done|].
  cbv zeta.
  destruct (update_conversation m _ st2) as [[e|[]] st3] eqn:H3; [|done].
  intros [= -> _]. apply update_conversation_raises in H3.
  pose proof (make_chat_prompt_not_provider m None true st2 detail) as Hnp.
  by rewrite H3 in Hnp.
Qed.

End Reply.

(** ** The claims about [get_reply] and the logs *)

Section ReplyClaims.
Context `{Platform}.

(** C1, as amended: when the completion service fails inside
    [get_reply], nothing has been appended to the transcript and both
    logs are as before; if the conversation was active, or no message
    (or an empty one) was given, the agent is wholly unchanged; if a
    message was given while the conversation was inactive, the lazy
    start has already replaced the transcript by the start template
    rendered with "a human". *)
Theorem get_reply_provider_failure
    (st : State) (msg : option string) (mrl : value) (detail : string)
    (st' : State) :
  get_reply msg mrl st = (inl (ProviderError detail), st') →
  __messages__ (self st') = __messages__ (self st) ∧
  __replies__ (self st') = __replies__ (self st) ∧
  (is_conversation_active (self st) = true ∨ msg = None ∨ msg = Some "" →
   self st' = self st) ∧
  (is_conversation_active (self st) = false →
   (∃ m, msg = Some m ∧ m ≠ "") →
   ∃ n t,
     name_of (self st) = inr n ∧
     str_format (START_TEMPLATE (self st))
       [("AGENT_NAME", Some n); ("USERNAME", Some "a human")] = inr t ∧
     _conversation__ (self st') = Some t).
Proof.
  intros (p & m & st1 & H1 & ->)%get_reply_provider_error.
  pose proof H1 as (Heff & _ & _ & Hkeep)%reply_prompt_outcome.
  apply prefix_effect_frame in Heff as (Hm & Hr & _).
  split; [done|]. split; [done|]. split.
  - intros Hcase. rewrite Hkeep; [done|].
    destruct Hcase as [?|[-> | ->]]; auto.
  - intros Hoff (m0 & -> & Hm0).
    rewrite reply_prompt_run in H1.
    assert (or_else (Some m0) None = Some m0) as Hgiven by by destruct m0.
    rewrite Hgiven in H1.
    destruct (make_chat_prompt m0 None true st) as [[e|q] st0] eqn:Hq; [done|].
    injection H1 as -> -> ->.
    apply make_chat_prompt_returns in Hq as (n & Hn & _ & Hst).
    rewrite Hoff in Hst. destruct Hst as (t & Ht & ->). by exists n, t.
Qed.

(** C2, what the code does without a message: when [get_reply] is called
    with no message (or an empty one) and reaches the service, the prompt
    it sends is the current transcript written twice, not the transcript
    alone. *)
Theorem get_reply_without_message_doubles_transcript
    (st : State) (msg : option string) (mrl : value) (res : exn + string)
    (st' : State) (rq : Request) :
  msg = None ∨ msg = Some "" →
  get_reply msg mrl st = (res, st') →
  requests (world st') = requests (world st) ++ [rq] →
  req_prompt rq = conversation_of (self st) +:+ conversation_of (self st).
Proof.
  intros Hmsg Hrun Hlog.
  destruct (get_reply_request _ _ _ _ _ _ Hrun Hlog) as (p & m & st1 & n & H1 & _ & -> & _).
  rewrite reply_prompt_run in H1.
  assert (or_else msg None = None) as Hnone by by destruct Hmsg as [-> | ->].
  rewrite Hnone in H1. by injection H1 as <- <- <-.
Qed.

(** C7: whenever [get_reply] calls the service, the stop sequences it
    passes are exactly the recorded human name followed by a colon and
    the agent's display name followed by a colon, in this order.  The
    recorded human name is the one on record when the call is made
    ("HUMAN" when there is none), that is, after the turn prefix has been
    rendered; on an active conversation it is the name recorded on
    entry. *)
Theorem get_reply_stop_sequences
    (st : State) (msg : option string) (mrl : value) (res : exn + string)
    (st' : State) (rq : Request) :
  get_reply msg mrl st = (res, st') →
  requests (world st') = requests (world st) ++ [rq] →
  let at_call := match or_else msg None with
                 | Some m => snd (make_chat_prompt m None true st)
                 | None => st
                 end in
  ∃ a,
    name_of (self st) = inr a ∧
    req_stop rq =
      Some [or_default (username (self at_call)) "HUMAN" +:+ ":"; a +:+ ":"] ∧
    (is_conversation_active (self st) = true →
     username (self at_call) = username (self st)).
Proof.
  intros Hrun Hlog at_call.
  destruct (get_reply_request _ _ _ _ _ _ Hrun Hlog)
    as (p & m & st1 & n & H1 & Hn & _ & Hstop).
  pose proof H1 as (Heff & _ & _ & Hkeep)%reply_prompt_outcome.
  apply prefix_effect_frame in Heff as (_ & _ & _ & Hname & _).
  assert (st1 = at_call) as ->.
  { rewrite reply_prompt_run in H1. subst at_call.
    destruct (or_else msg None) as [m0|]; [|by injection H1].
    destruct (make_chat_prompt m0 None true st) as [[e|q] st0]; [done|].
    by injection H1. }
  exists n. rewrite <- Hname. split; [done|]. split; [done|].
  intros Hact. by rewrite Hkeep; [|left].
Qed.

(** C8: a [get_reply] that returns a reply (a non-empty text) appends
    the message it was given, or the empty string when none was given, to
    the message log and the reply to the reply log, one entry each; a
    [send_message] that returns appends its message to the message log
    and leaves the reply log unchanged. *)
Theorem logs_in_lockstep :
  (∀ (st : State) (msg : option string) (mrl : value) (reply : string)
     (st' : State),
     get_reply msg mrl st = (inr reply, st') →
     reply ≠ "" →
     __messages__ (self st') = __messages__ (self st) ++ [or_default msg ""] ∧
     __replies__ (self st') = __replies__ (self st) ++ [reply]) ∧
  (∀ (st : State) (msg : string) (st' : State),
     send_message msg st = (inr tt, st') →
     __messages__ (self st') = __messages__ (self st) ++ [msg] ∧
     __replies__ (self st') = __replies__ (self st)).
Proof.
  split.
  - intros st msg mrl reply st' (p & st1 & st2 & H1 & Hself & Hup)%get_reply_returns Hreply.
    apply reply_prompt_outcome in H1 as (Heff & _).
    apply prefix_effect_frame in Heff as (Hm & Hr & _).
    apply update_conversation_appends in Hup as (_ & -> & ->).
    rewrite Hself, Hm, Hr, or_default_empty.
    by destruct reply.
  - intros st msg st' Hup. unfold send_message in Hup.
    by apply update_conversation_appends in Hup as (_ & -> & ->).
Qed.

End ReplyClaims.

(** ** The engine on the stub platform *)

Section OnStub.
Import Stub.
Variable service : list Request → Request → string + list string.

Lemma construct_fresh :
  construct (platform service) (named "BOT") = Some (fresh "BOT").
Proof. vm_compute. reflexivity. Qed.

Lemma format_start_default (n : string) (user : option string) :
  format_text (DEFAULT_START_TEMPLATE +:+ LF) (start_kwargs n user) =
  inr (greeting n match or_else user None with
                  | Some u => "a person named " +:+ u
                  | None => "a human"
                  end).
Proof. reflexivity. Qed.

Lemma format_turn_default (user : option string) (n msg : string) :
  format_text DEFAULT_MSG_TEMPLATE (turn_kwargs user n msg) =
  inr (turn user n msg).
Proof. reflexivity. Qed.

Local Abbreviation P := (platform service).
Local Abbreviation on_defaults := (Stub.on_defaults service).

(** With the default templates and an agent name that resolves, every
    transcript update returns, and keeps the templates and the name. *)
Lemma make_chat_prompt_on_defaults n st msg user cont :
  on_defaults n st →
  ∃ p st', @make_chat_prompt P msg user cont st = (inr p, st') ∧ on_defaults n st'.
Proof.
  intros (Hs & Hm & Hn). rewrite make_chat_prompt_run. cbv zeta.
  destruct (negb _ || negb cont).
  - rewrite start_conversation_run, Hn, Hs.
    change (@str_format P) with format_text. rewrite format_start_default.
    cbn [self]. rewrite name_of_started, Hn.
    change (MSG_TEMPLATE (started _ _ _ (self st))) with (MSG_TEMPLATE (self st)).
    rewrite Hm, format_turn_default. eexists _, _. split; [done|].
    by repeat split.
  - rewrite Hn, Hm. change (@str_format P) with format_text.
    rewrite format_turn_default. eexists _, _. split; [done|]. by repeat split.
Qed.

Lemma run_call_on_defaults n st c :
  on_defaults n st →
  ∃ st', @run_call P c st = (inr tt, st') ∧ on_defaults n st'.
Proof.
  intros Hd.
  assert (∀ msg reply, ∃ st',
            @update_conversation P msg reply st = (inr tt, st') ∧ on_defaults n st')
    as Hup.
  { intros msg reply. rewrite update_conversation_run.
    destruct (make_chat_prompt_on_defaults n st msg None true Hd)
      as (p & st1 & -> & Hs & Hm & Hn).
    eexists. split; [done|]. unfold Stub.on_defaults, logged. cbv zeta. cbn [self].
    by destruct (truthy (or_default reply "")). }
  destruct c; apply Hup.
Qed.

(** On such an agent every sequence of updates runs to its end. *)
Lemma run_calls_on_defaults n cs st :
  on_defaults n st →
  ∃ trace, @run_calls P cs st = inr trace ∧ length trace = length cs.
Proof.
  revert st. induction cs as [|c cs IH]; intros st Hd; [by exists []|].
  destruct (run_call_on_defaults n st c Hd) as (st1 & Hc & Hd1).
  destruct (IH st1 Hd1) as (trace & Hcs & Hlen).
  exists (st1 :: trace). simpl. rewrite Hc, Hcs. by rewrite <- Hlen.
Qed.

End OnStub.

(** ** The scenarios of the claims, run on the stub platform *)

Ltac evaluate := vm_compute; reflexivity.

Section Scenarios.
Import Stub.

Local Abbreviation bot := (fresh "BOT").
Local Abbreviation hello := (answering "hello").

Lemma bot_name (P : Platform) :
  @available_engines P = inr engines → @name_of P (self bot) = inr "BOT".
Proof. unfold name_of, get_available_engines. by intros ->. Qed.

Lemma bot_greeting (P : Platform) :
  @str_format P = format_text →
  @str_format P (START_TEMPLATE (self bot))
    [("AGENT_NAME", Some "BOT"); ("USERNAME", Some "a human")]
  = inr (greeting "BOT" "a human").
Proof. by intros ->. Qed.

(** C4, the claim as stated fails: on a fresh agent,
    [make_chat_prompt("hi", "Alice")] starts the conversation, yet the
    name it records is not "Alice" and the transcript is not the one
    that [start_conversation("Alice")] would have written. *)
Lemma make_chat_prompt_drops_given_name :
  let st' := after (@make_chat_prompt hello "hi" (Some "Alice") true) bot in
  is_conversation_active (self bot) = false ∧
  outcome (@make_chat_prompt hello "hi" (Some "Alice") true) bot
    = inr (turn (Some "Alice") "BOT" "hi") ∧
  username (self st') ≠ Some "Alice" ∧
  _conversation__ (self st')
    ≠ _conversation__ (self (after (@start_conversation hello (Some "Alice")) bot)).
Proof.
  vm_compute. split; [reflexivity|]. split; [reflexivity|].
  split; [discriminate|]. by apply some_string_differ.
Qed.

Lemma make_chat_prompt_starts_without_name_witness :
  let st' := after (@make_chat_prompt hello "hi" (Some "Alice") true) bot in
  _conversation__ (self st') = Some (greeting "BOT" "a human") ∧
  is_conversation_active (self st') = true ∧
  username (self st') = Some "HUMAN".
Proof.
  intros st'.
  assert (@make_chat_prompt hello "hi" (Some "Alice") true bot
          = (inr (turn (Some "Alice") "BOT" "hi"), st')) as Hrun by evaluate.
  destruct (@make_chat_prompt_starts_without_name hello bot "hi" (Some "Alice")
              true _ st' (or_introl eq_refl) Hrun)
    as (n & t & Hn & Ht & Hc & Ha & Hu & _).
  rewrite (bot_name hello eq_refl) in Hn. injection Hn as <-.
  rewrite (bot_greeting hello eq_refl) in Ht. injection Ht as <-.
  split; [exact Hc|]. split; [exact Ha|exact Hu].
Defined.

Lemma get_single_reply_without_name_witness :
  ∃ st',
    @get_single_reply hello "Hi" VNone None bot = (inl TypeError, st') ∧
    _conversation__ (self st') = Some (greeting "BOT" "a human") ∧
    username (self st') = Some "HUMAN" ∧
    requests (world st') = requests (world bot).
Proof.
  apply (@get_single_reply_without_name hello bot "Hi" VNone "BOT"
           (greeting "BOT" "a human") (turn None "BOT" "Hi")); evaluate.
Defined.

(** The conversation with Sam after one exchange. *)
Local Abbreviation sam := (after (@start_conversation hello (Some "Sam")) bot).
Local Abbreviation sam_greeted := (after (@get_reply hello (Some "Hi") VNone) sam).

(** C5, the claim as stated fails: after one exchange with Sam,
    [get_single_reply("Bye")] returns the provider's text and leaves a
    transcript that is no longer the one it found. *)
Lemma get_single_reply_discards_transcript :
  let st' := after (@get_single_reply hello "Bye" VNone None) sam_greeted in
  outcome (@get_single_reply hello "Bye" VNone None) sam_greeted = inr "hello" ∧
  conversation_of (self sam_greeted)
    = greeting "BOT" "a person named Sam" +:+ "Sam:Hi" +:+ LF +:+ "BOT:hello" +:+ LF ∧
  conversation_of (self st') = greeting "BOT" "a human" ∧
  conversation_of (self st') ≠ conversation_of (self sam_greeted).
Proof.
  vm_compute. split; [reflexivity|]. split; [reflexivity|].
  split; [reflexivity|]. by apply string_differ.
Qed.

Lemma get_single_reply_restarts_witness :
  let st' := after (@get_single_reply hello "Bye" VNone None) sam_greeted in
  __messages__ (self st') = __messages__ (self sam_greeted) ∧
  __replies__ (self st') = __replies__ (self sam_greeted) ∧
  _conversation__ (self st') = Some (greeting "BOT" "a human") ∧
  username (self st') = Some "HUMAN".
Proof.
  intros st'.
  assert (@get_single_reply hello "Bye" VNone None sam_greeted = (inr "hello", st'))
    as Hrun by evaluate.
  destruct (@get_single_reply_restarts hello _ _ _ _ _ _ Hrun) as (Hm & Hr & Hret).
  destruct (Hret "hello" eq_refl) as (n & t & rq & choices & Hn & Ht & Hc & Hu & _).
  assert (@name_of hello (self sam_greeted) = inr "BOT") as Hbot by evaluate.
  rewrite Hbot in Hn. injection Hn as <-.
  assert (@str_format hello (START_TEMPLATE (self sam_greeted))
            [("AGENT_NAME", Some "BOT"); ("USERNAME", Some "a human")]
          = inr (greeting "BOT" "a human")) as Hstart by evaluate.
  rewrite Hstart in Ht. injection Ht as <-.
  split; [exact Hm|]. split; [exact Hr|]. split; [exact Hc|exact Hu].
Defined.

(** C1, the claim as stated fails: on a fresh agent and a service that is
    down, [get_reply("Hi")] raises the provider's error and leaves a
    transcript that is no longer the empty one it found. *)
Lemma get_reply_failure_after_lazy_start :
  let st' := after (@get_reply failing (Some "Hi") VNone) bot in
  outcome (@get_reply failing (Some "Hi") VNone) bot
    = inl (ProviderError "service unavailable") ∧
  conversation_of (self bot) = "" ∧
  conversation_of (self st') = greeting "BOT" "a human" ∧
  conversation_of (self st') ≠ conversation_of (self bot).
Proof.
  vm_compute. split; [reflexivity|]. split; [reflexivity|].
  split; [reflexivity|]. by apply string_differ.
Qed.

Lemma get_reply_provider_failure_witness :
  let st' := after (@get_reply failing (Some "Hi") VNone) bot in
  __messages__ (self st') = __messages__ (self bot) ∧
  __replies__ (self st') = __replies__ (self bot) ∧
  _conversation__ (self st') = Some (greeting "BOT" "a human") ∧
  self (after (@get_reply failing None VNone) bot) = self bot.
Proof.
  intros st'.
  assert (@get_reply failing (Some "Hi") VNone bot
          = (inl (ProviderError "service unavailable"), st')) as Hrun by evaluate.
  assert (@get_reply failing None VNone bot
          = (inl (ProviderError "service unavailable"),
             after (@get_reply failing None VNone) bot)) as Hnone by evaluate.
  destruct (@get_reply_provider_failure failing _ _ _ _ _ Hrun) as (Hm & Hr & _ & Hlazy).
  destruct (Hlazy eq_refl) as (n & t & Hn & Ht & Hc).
  { exists "Hi". by split. }
  destruct (@get_reply_provider_failure failing _ _ _ _ _ Hnone) as (_ & _ & Hkeep & _).
  rewrite (bot_name failing eq_refl) in Hn. injection Hn as <-.
  rewrite (bot_greeting failing eq_refl) in Ht. injection Ht as <-.
  split; [exact Hm|]. split; [exact Hr|]. split; [exact Hc|].
  apply Hkeep. right. by left.
Defined.

(** C2, at the failing input: with the transcript that
    [start_conversation("Sam")] wrote, [get_reply()] sends that
    transcript twice. *)
Lemma get_reply_without_message_witness :
  let st' := after (@get_reply hello None VNone) sam in
  ∃ rq,
    requests (world st') = requests (world sam) ++ [rq] ∧
    conversation_of (self sam) = greeting "BOT" "a person named Sam" ∧
    req_prompt rq = conversation_of (self sam) +:+ conversation_of (self sam) ∧
    req_prompt rq ≠ conversation_of (self sam).
Proof.
  intros st'.
  assert (∃ rq, requests (world st') = requests (world sam) ++ [rq]) as [rq Hlog]
    by (vm_compute; eexists; reflexivity).
  exists rq. split; [exact Hlog|]. split; [evaluate|].
  assert (req_prompt rq
          = conversation_of (self sam) +:+ conversation_of (self sam)) as Hdouble.
  { apply (@get_reply_without_message_doubles_transcript hello sam None VNone
             (outcome (@get_reply hello None VNone) sam) st' rq);
      [by left|apply surjective_pairing|exact Hlog]. }
  split; [exact Hdouble|].
  rewrite Hdouble. apply string_differ. evaluate.
Defined.

(** The conversation with Alice, just started. *)
Local Abbreviation alice := (after (@start_conversation hello (Some "Alice")) bot).

Lemma get_reply_stop_sequences_witness :
  let st' := after (@get_reply hello (Some "Hi") VNone) alice in
  ∃ rq,
    requests (world st') = requests (world alice) ++ [rq] ∧
    req_stop rq = Some ["Alice:"; "BOT:"].
Proof.
  intros st'.
  assert (∃ rq, requests (world st') = requests (world alice) ++ [rq]) as [rq Hlog]
    by (vm_compute; eexists; reflexivity).
  exists rq. split; [exact Hlog|].
  destruct (@get_reply_stop_sequences hello alice (Some "Hi") VNone
              (outcome (@get_reply hello (Some "Hi") VNone) alice) st' rq)
    as (a & Ha & Hstop & Hname); [apply surjective_pairing|exact Hlog|].
  assert (is_conversation_active (self alice) = true) as Hact by evaluate.
  assert (@name_of hello (self alice) = inr "BOT") as Hbot by evaluate.
  rewrite Hbot in Ha. injection Ha as <-.
  rewrite Hstop, (Hname Hact). evaluate.
Defined.

Lemma logs_in_lockstep_witness :
  let st1 := after (@get_reply hello (Some "hi") VNone) bot in
  let st2 := after (@send_message hello "hi") st1 in
  (__messages__ (self st1) = ["hi"] ∧ __replies__ (self st1) = ["hello"]) ∧
  (__messages__ (self st2) = ["hi"; "hi"] ∧ __replies__ (self st2) = ["hello"]).
Proof.
  intros st1 st2.
  assert (@get_reply hello (Some "hi") VNone bot = (inr "hello", st1)) as Hreply
    by evaluate.
  assert (@send_message hello "hi" st1 = (inr tt, st2)) as Hsend by evaluate.
  destruct (@logs_in_lockstep hello) as [Hboth Honly].
  destruct (Hboth _ _ _ _ _ Hreply) as [Hm Hr]; [done|].
  destruct (Honly _ _ _ Hsend) as [Hm' Hr'].
  split; split.
  - etrans; [exact Hm|evaluate].
  - etrans; [exact Hr|evaluate].
  - etrans; [exact Hm'|evaluate].
  - etrans; [exact Hr'|evaluate].
Defined.

Lemma transcript_append_only_witness :
  let s1 := after (@send_message hello "hi") alice in
  let s2 := after (@update_conversation hello "how are you?" (Some " fine ")) s1 in
  let s3 := after (@send_message hello "bye") s2 in
  proper_prefix (conversation_of (self alice)) (conversation_of (self s1)) ∧
  proper_prefix (conversation_of (self s1)) (conversation_of (self s2)) ∧
  proper_prefix (conversation_of (self s2)) (conversation_of (self s3)).
Proof.
  intros s1 s2 s3.
  assert (@run_calls hello
            [SendMessage "hi"; UpdateConversation "how are you?" (Some " fine ");
             SendMessage "bye"] alice = inr [s1; s2; s3]) as Hrun by evaluate.
  pose proof (@transcript_append_only hello _ _ _ Hrun) as Hstep.
  split; [by apply (Hstep 0%nat)|]. split; [by apply (Hstep 1%nat)|by apply (Hstep 2%nat)].
Defined.

(** C3, at the failing input: a [send_message("hi")] on a fresh agent
    returns and activates the conversation, but the transcript it leaves
    is just the turn, labelled "None"; it does not begin with the start
    template, rendered for any human name. *)
Theorem send_message_first_drops_start_template :
  let st' := after (@send_message hello "hi") bot in
  @send_message hello "hi" bot = (inr tt, st') ∧
  is_conversation_active (self st') = true ∧
  conversation_of (self st') = "None:hi" +:+ LF +:+ "BOT:" +:+ LF ∧
  ∀ user t,
    @str_format hello (START_TEMPLATE (self st')) (start_kwargs "BOT" user) = inr t →
    startswith (conversation_of (self st')) t = false.
Proof.
  intros st'. split; [evaluate|]. split; [evaluate|]. split; [evaluate|].
  intros user t Ht.
  assert (START_TEMPLATE (self st') = DEFAULT_START_TEMPLATE +:+ LF) as Htpl
    by evaluate.
  rewrite Htpl in Ht.
  change (@str_format hello) with format_text in Ht.
  rewrite format_start_default in Ht. injection Ht as <-.
  assert (conversation_of (self st') = "None:hi" +:+ LF +:+ "BOT:" +:+ LF) as ->
    by evaluate.
  reflexivity.
Qed.

End Scenarios.

(** * Further properties of the engine *)

(** ** Trimming *)

Lemma rtrim_absorbs (p q : ascii → bool) (s : string) :
  (∀ c, q c = true → p c = true) → rtrim q (rtrim p s) = rtrim p s.
Proof.
  intros Hqp. induction s as [|c r IH]; [done|].
  cbn [rtrim]. destruct (p c && is_empty (rtrim p r)) eqn:Hdrop; [done|].
  cbn [rtrim]. rewrite IH.
  destruct (q c) eqn:Hq; [|done]. rewrite (Hqp c Hq) in Hdrop.
  cbn [andb] in *. by rewrite Hdrop.
Qed.

Lemma ltrim_head (p : ascii → bool) (s : string) :
  match ltrim p s with String c _ => p c = false | EmptyString => True end.
Proof.
  induction s as [|c r IH]; [done|]. cbn [ltrim].
  by destruct (p c) eqn:Hp.
Qed.

Lemma rtrim_head (p : ascii → bool) (s : string) :
  match s with String c _ => p c = false | EmptyString => True end →
  match rtrim p s with String c _ => p c = false | EmptyString => True end.
Proof.
  destruct s as [|c r]; [done|]. intros Hp. cbn [rtrim]. rewrite Hp.
  cbn [andb]. exact Hp.
Qed.

Lemma ltrim_fixed (p : ascii → bool) (s : string) :
  match s with String c _ => p c = false | EmptyString => True end →
  ltrim p s = s.
Proof. destruct s as [|c r]; [done|]. cbn [ltrim]. by intros ->. Qed.

Lemma strip_idempotent (s : string) : strip (strip s) = strip s.
Proof.
  unfold strip.
  rewrite (ltrim_fixed isspace (rtrim isspace (ltrim isspace s)))
    by apply rtrim_head, ltrim_head.
  by apply rtrim_absorbs.
Qed.

Lemma sub_trailing_newlines_strip (s : string) :
  sub_trailing_newlines (strip s) = strip s.
Proof.
  unfold sub_trailing_newlines, strip. apply rtrim_absorbs.
  intros c. unfold is_newline, isspace. intros ->%N.eqb_eq. reflexivity.
Qed.

(** ** What every method does to the state

    Whatever a method does to the state, whether it returns or raises, is
    made of three kinds of steps: the assignments of [start_conversation],
    the logging of a request, and the assignments of
    [update_conversation].  A relation that is reflexive, transitive and
    holds of these steps therefore holds between the states before and
    after every method. *)

Section Steps.
Context `{Platform}.
Variable R : State → State → Prop.
Hypothesis R_refl : ∀ st, R st st.
Hypothesis R_trans : ∀ st1 st2 st3, R st1 st2 → R st2 st3 → R st1 st3.
Hypothesis R_started : ∀ st t user,
  R st {| self := started t (utcnow_isoformat (clock (world st))) user (self st);
          world := tick (world st) |}.
Hypothesis R_asked : ∀ st rq,
  R st {| self := self st; world := asked rq (world st) |}.
Hypothesis R_logged : ∀ st c p msg reply,
  R st {| self := logged c p msg reply (self st); world := world st |}.

Lemma start_conversation_step user st : R st (snd (start_conversation user st)).
Proof.
  rewrite start_conversation_run.
  destruct (name_of (self st)); [apply R_refl|].
  destruct (str_format _ _); [apply R_refl|apply R_started].
Qed.

Lemma prefix_effect_step st st' : prefix_effect st st' → R st st'.
Proof. intros [|n t _ _]; [apply R_refl|apply R_started]. Qed.

Lemma make_chat_prompt_step msg user cont st :
  R st (snd (make_chat_prompt msg user cont st)).
Proof. apply prefix_effect_step, make_chat_prompt_effect. Qed.

Lemma get_completion_step prompt stop kwargs st :
  R st (snd (get_completion prompt stop kwargs st)).
Proof.
  rewrite get_completion_run. cbv zeta.
  destruct (_ !! "prompt"); [apply R_refl|].
  destruct (_ !! "stop"); [apply R_refl|].
  destruct (completion_create _ _); apply R_asked.
Qed.

Lemma update_conversation_step msg reply st :
  R st (snd (update_conversation msg reply st)).
Proof.
  rewrite update_conversation_run.
  pose proof (make_chat_prompt_step msg None true st) as H1.
  destruct (make_chat_prompt msg None true st) as [[e|p] st1]; [done|].
  apply (R_trans _ st1); [done|apply R_logged].
Qed.

Lemma reply_prompt_step msg st : R st (snd (reply_prompt msg st)).
Proof.
  destruct (reply_prompt msg st) as [res st1] eqn:Hrun.
  apply reply_prompt_outcome in Hrun as (Heff & _). by apply prefix_effect_step.
Qed.

Lemma get_reply_step msg mrl st : R st (snd (get_reply msg mrl st)).
Proof.
  rewrite get_reply_run.
  pose proof (reply_prompt_step msg st) as H1.
  destruct (reply_prompt msg st) as [[e|[p m]] st1]; cbn [snd] in *; [done|].
  destruct (name_of (self st1)) as [e|n]; [done|].
  match goal with |- context [get_completion ?a ?b ?c st1] =>
    pose proof (get_completion_step a b c st1) as H2;
    destruct (get_completion a b c st1) as [[e|[|text choices]] st2]
  end; cbn [snd] in *; [by apply (R_trans _ st1)..|].
  cbv zeta.
  match goal with |- context [update_conversation ?a ?b st2] =>
    pose proof (update_conversation_step a b st2) as H3;
    destruct (update_conversation a b st2) as [[e|[]] st3]
  end; cbn [snd] in *;
    (apply (R_trans _ st1); [done|]); by apply (R_trans _ st2).
Qed.

Lemma get_single_reply_step msg mrl user st :
  R st (snd (get_single_reply msg mrl user st)).
Proof.
  rewrite get_single_reply_run.
  pose proof (make_chat_prompt_step msg None false st) as H1.
  destruct (make_chat_prompt msg None false st) as [[e|p] st1]; cbn [snd] in *; [done|].
  destruct (or_else user (username (self st))) as [u|]; [|done].
  destruct (name_of (self st1)) as [e|n]; [done|].
  match goal with |- context [get_completion ?a ?b ?c st1] =>
    pose proof (get_completion_step a b c st1) as H2;
    destruct (get_completion a b c st1) as [[e|[|text choices]] st2]
  end; cbn [snd] in *; by apply (R_trans _ st1).
Qed.

End Steps.

(** ** The setters of generation parameters *)

Lemma with_completion_params_same a :
  with_completion_params (completion_params a) a = a.
Proof. by destruct a. Qed.

(** The loop of [set_agent_params] always returns, and amounts to one
    update of the mapping, in which a later keyword wins over an earlier
    one and over the stored value. *)
Lemma set_agent_params_effect params st :
  fst (set_agent_params params st) = inr tt ∧
  world (snd (set_agent_params params st)) = world st ∧
  self (snd (set_agent_params params st)) =
    with_completion_params
      (list_to_map (reverse params) ∪ completion_params (self st)) (self st).
Proof.
  revert st. induction params as [|[k v] rest IH]; intros st.
  { cbn. rewrite (left_id_L ∅ (∪)). by rewrite with_completion_params_same. }
  change (set_agent_params ((k, v) :: rest) st)
    with (set_agent_params rest (snd (set_agent_param k v st))).
  destruct (IH (snd (set_agent_param k v st))) as (-> & -> & ->).
  split; [done|]. split; [done|].
  cbn [set_agent_param modify snd self completion_params with_completion_params].
  rewrite reverse_cons, list_to_map_app. cbn [list_to_map foldr fst snd].
  rewrite insert_empty, <- (assoc_L (∪)), <- insert_union_singleton_l.
  reflexivity.
Qed.

(** X18: [set_agent_params] always returns; afterwards every keyword it
    was given is stored with its value (the last one, should a keyword
    come twice), every other parameter is stored as before, and nothing
    but the parameters has changed. *)
Theorem set_agent_params_updates (params : list (string * value)) (st : State) :
  fst (set_agent_params params st) = inr tt ∧
  (∀ k, completion_params (self (snd (set_agent_params params st))) !! k =
        match (list_to_map (reverse params) : gmap string value) !! k with
        | Some v => Some v
        | None => completion_params (self st) !! k
        end) ∧
  with_completion_params (completion_params (self st))
    (self (snd (set_agent_params params st))) = self st ∧
  world (snd (set_agent_params params st)) = world st.
Proof.
  destruct (set_agent_params_effect params st) as (Hres & Hw & Hs).
  split; [done|]. rewrite Hs, Hw. split; [|split; [|done]].
  - intros k. cbn [completion_params with_completion_params].
    rewrite lookup_union.
    destruct (list_to_map (reverse params) !! k);
      by destruct (completion_params (self st) !! k).
  - by destruct (self st).
Qed.

(** ** Histories of calls *)

Ltac case_op op :=
  destruct op as [user_name|conversation_text|text|msg user_name cont
                 |prompt stop kwargs|msg mrl user_name|msg mrl|msg|msg reply
                 |param val|params].

Section Histories.
Context `{Platform}.

Lemma evolves_refl st : evolves st st.
Proof. by repeat split. Qed.

Lemma evolves_trans st1 st2 st3 : evolves st1 st2 → evolves st2 st3 → evolves st1 st3.
Proof.
  intros (Hn & Hs & Hm & Hl & Hr & Hq & Ha) (Hn' & Hs' & Hm' & Hl' & Hr' & Hq' & Ha').
  repeat split; [congruence..| by etrans | by etrans | by etrans | auto].
Qed.

Lemma logged_frame c p msg reply a :
  _agent_name (logged c p msg reply a) = _agent_name a ∧
  START_TEMPLATE (logged c p msg reply a) = START_TEMPLATE a ∧
  MSG_TEMPLATE (logged c p msg reply a) = MSG_TEMPLATE a ∧
  completion_params (logged c p msg reply a) = completion_params a ∧
  username (logged c p msg reply a) = username a ∧
  is_conversation_active (logged c p msg reply a) = is_conversation_active a.
Proof. unfold logged. cbv zeta. by destruct (truthy reply). Qed.

Lemma evolves_logged st c p msg reply :
  evolves st {| self := logged c p msg reply (self st); world := world st |}.
Proof.
  destruct (logged_frame c p msg reply (self st)) as (Hn & Hs & Hm & _ & _ & Ha).
  unfold evolves. cbn [self world].
  rewrite Hn, Hs, Hm, Ha, messages_logged, replies_logged.
  repeat split; [by apply prefix_app_r| |done..].
  destruct (truthy _); [by apply prefix_app_r|done].
Qed.

Lemma evolves_asked st rq :
  evolves st {| self := self st; world := asked rq (world st) |}.
Proof. repeat split; [done..| by apply prefix_app_r |done]. Qed.

Lemma run_op_evolves op st : evolves st (run_op op st).
Proof.
  pose proof evolves_refl as Hr. pose proof evolves_trans as Ht.
  pose proof evolves_asked as Ha. pose proof evolves_logged as Hl.
  assert (∀ st t user,
    evolves st {| self := started t (utcnow_isoformat (clock (world st))) user (self st);
                  world := tick (world st) |}) as Hs by by repeat split.
  case_op op; cbn [run_op].
  - by apply start_conversation_step.
  - by repeat split.
  - by repeat split.
  - by apply make_chat_prompt_step.
  - by apply get_completion_step.
  - by apply get_single_reply_step.
  - by apply get_reply_step.
  - unfold send_message. by apply update_conversation_step.
  - by apply update_conversation_step.
  - by repeat split.
  - destruct (set_agent_params_effect params st) as (_ & Hw & Hself).
    unfold evolves. rewrite Hw, Hself. by repeat split.
Qed.

Lemma run_ops_evolves ops st : evolves st (run_ops ops st).
Proof.
  revert st. induction ops as [|op ops IH]; intros st; [apply evolves_refl|].
  apply (evolves_trans _ (run_op op st)); [apply run_op_evolves|apply IH].
Qed.

End Histories.

(** ** Invariants of every history *)

Section Invariants.
Context `{Platform}.

(** X1: whatever methods are called and in whatever order, and whether
    they return or raise, the message log and the reply log are only ever
    extended: what was logged stays logged, in the same order, also across
    a restart of the conversation. *)
Theorem logs_never_shrink (ops : list Op) (st : State) :
  __messages__ (self st) `prefix_of` __messages__ (self (run_ops ops st)) ∧
  __replies__ (self st) `prefix_of` __replies__ (self (run_ops ops st)).
Proof. by destruct (run_ops_evolves ops st) as (_ & _ & _ & ? & ? & _). Qed.

(** X2: no method ever deactivates a conversation: once it is active it
    is active after any further calls, returning or raising. *)
Theorem conversation_stays_active (ops : list Op) (st : State) :
  is_conversation_active (self st) = true →
  is_conversation_active (self (run_ops ops st)) = true.
Proof. by destruct (run_ops_evolves ops st) as (_ & _ & _ & _ & _ & _ & ?). Qed.

Lemma name_of_ext a b :
  _agent_name a = _agent_name b → completion_params a = completion_params b →
  name_of a = name_of b.
Proof. unfold name_of, engine_of. by intros -> ->. Qed.

Lemma run_op_params op st :
  sets_params op = false →
  completion_params (self (run_op op st)) = completion_params (self st).
Proof.
  set (R := λ st st' : State,
         completion_params (self st') = completion_params (self st)).
  assert (∀ st, R st st) as Hr by done.
  assert (∀ st1 st2 st3, R st1 st2 → R st2 st3 → R st1 st3) as Ht
    by (unfold R; congruence).
  assert (∀ st t user,
    R st {| self := started t (utcnow_isoformat (clock (world st))) user (self st);
            world := tick (world st) |}) as Hs by done.
  assert (∀ st rq, R st {| self := self st; world := asked rq (world st) |})
    as Ha by done.
  assert (∀ st c p msg reply,
    R st {| self := logged c p msg reply (self st); world := world st |}) as Hl.
  { intros st0 c p msg reply. unfold R. cbn [self].
    by destruct (logged_frame c p msg reply (self st0)) as (_ & _ & _ & ? & _). }
  change (sets_params op = false → R st (run_op op st)).
  case_op op; cbn [run_op sets_params]; intros Hop; try done.
  - by apply start_conversation_step.
  - by apply make_chat_prompt_step.
  - by apply get_completion_step.
  - by apply get_single_reply_step.
  - by apply get_reply_step.
  - unfold send_message. by apply update_conversation_step.
  - by apply update_conversation_step.
Qed.

(** X3: the identity of the agent is fixed: no call changes the agent's
    own name or its two templates, and as long as neither setter of
    generation parameters is called the parameters and the display name
    are those of the start. *)
Theorem identity_never_changes (ops : list Op) (st : State) :
  (_agent_name (self (run_ops ops st)) = _agent_name (self st) ∧
   START_TEMPLATE (self (run_ops ops st)) = START_TEMPLATE (self st) ∧
   MSG_TEMPLATE (self (run_ops ops st)) = MSG_TEMPLATE (self st)) ∧
  (forallb (λ op, negb (sets_params op)) ops = true →
   completion_params (self (run_ops ops st)) = completion_params (self st) ∧
   name_of (self (run_ops ops st)) = name_of (self st)).
Proof.
  split; [by destruct (run_ops_evolves ops st) as (? & ? & ? & _)|].
  intros Hops.
  assert (completion_params (self (run_ops ops st)) = completion_params (self st))
    as Hparams.
  { revert st. induction ops as [|op ops IH]; intros st; [done|].
    cbn [forallb] in Hops. apply andb_true_iff in Hops as [Hop Hops].
    apply negb_true_iff in Hop.
    change (run_ops (op :: ops) st) with (run_ops ops (run_op op st)).
    by rewrite (IH Hops), run_op_params. }
  split; [done|]. apply name_of_ext; [|done].
  by destruct (run_ops_evolves ops st) as (? & _).
Qed.

Lemma requests_kept_step :
  let R := λ st st' : State, requests (world st') = requests (world st) in
  (∀ st, R st st) ∧ (∀ st1 st2 st3, R st1 st2 → R st2 st3 → R st1 st3) ∧
  (∀ st t user,
     R st {| self := started t (utcnow_isoformat (clock (world st))) user (self st);
             world := tick (world st) |}) ∧
  (∀ st c p msg reply,
     R st {| self := logged c p msg reply (self st); world := world st |}).
Proof. intros R. unfold R. repeat split; try done. congruence. Qed.


Lemma or_default_nonempty (u : option string) (d : string) :
  d ≠ "" → or_default u d ≠ "".
Proof. intros Hd. by destruct u as [[|c s]|]. Qed.

Lemma consistent_started t now user a :
  consistent a → consistent (started t now user a).
Proof.
  intros (_ & _ & Hlen). split; [|split; [done|exact Hlen]].
  intros _. exists (or_default user "HUMAN"), t.
  split; [done|]. split; [by apply or_default_nonempty|done].
Qed.

Lemma consistent_logged c p msg reply a :
  consistent a → consistent (logged c p msg reply a).
Proof.
  intros (Hact & Hoff & Hlen).
  destruct (logged_frame c p msg reply a) as (_ & _ & _ & _ & Hu & Ha).
  unfold consistent. rewrite Hu, Ha, messages_logged, replies_logged.
  split; [|split; [done|]].
  - intros (h & _ & Hh & Hne & _)%Hact. exists h. eexists.
    split; [done|]. split; [done|].
    unfold logged. cbv zeta. by destruct (truthy reply).
  - destruct (truthy reply); rewrite !length_app; simpl; lia.
Qed.

Lemma run_op_consistent op st :
  consistent (self st) → consistent (self (run_op op st)).
Proof.
  set (R := λ st st' : State, consistent (self st) → consistent (self st')).
  assert (∀ st, R st st) as Hr by (unfold R; auto).
  assert (∀ st1 st2 st3, R st1 st2 → R st2 st3 → R st1 st3) as Ht
    by (unfold R; auto).
  assert (∀ st t user,
    R st {| self := started t (utcnow_isoformat (clock (world st))) user (self st);
            world := tick (world st) |}) as Hs
    by (intros; intro; by apply consistent_started).
  assert (∀ st rq, R st {| self := self st; world := asked rq (world st) |})
    as Ha by (unfold R; auto).
  assert (∀ st c p msg reply,
    R st {| self := logged c p msg reply (self st); world := world st |}) as Hl
    by (intros; intro; by apply consistent_logged).
  change (R st (run_op op st)).
  case_op op; cbn [run_op].
  - by apply start_conversation_step.
  - intros (Hact & Hoff & Hlen). split; [|done].
    intros (h & t & Hh & Hne & _)%Hact. by exists h, conversation_text.
  - unfold R. auto.
  - by apply make_chat_prompt_step.
  - by apply get_completion_step.
  - by apply get_single_reply_step.
  - by apply get_reply_step.
  - unfold send_message. by apply update_conversation_step.
  - by apply update_conversation_step.
  - unfold R. auto.
  - unfold R. by destruct (set_agent_params_effect params st) as (_ & _ & ->).
Qed.

(** X5: in every state that a program reaches from a constructed agent
    through the methods, a conversation is active exactly when a human
    name is on record, that name is not empty, an active conversation has a
    transcript, and the reply log is no longer than the message log. *)
Theorem reachable_consistent (st : State) :
  reachable st → consistent (self st).
Proof.
  induction 1 as [args w a w' Hinit|st op _ IH]; [|by apply run_op_consistent].
  unfold __init__ in Hinit.
  destruct get_available_engines; [done|]. case_bool_decide; [|done].
  destruct (_ !! "max_tokens"); [done|]. destruct (_ !! "n"); [done|].
  injection Hinit as <- <-. by repeat split.
Qed.

End Invariants.

(** ** Requests *)

Section Requests.
Context `{Platform}.

(** The one request of a [get_completion] that sends one. *)
Lemma get_completion_request prompt stop kwargs st res st' rq :
  get_completion prompt stop kwargs st = (res, st') →
  requests (world st') = requests (world st) ++ [rq] →
  rq = {| req_prompt := prompt; req_params := sent_params kwargs (self st);
          req_stop := stop |} ∧
  st' = {| self := self st; world := asked rq (world st) |} ∧
  res = match completion_create (requests (world st)) rq with
        | inl detail => inl (ProviderError detail)
        | inr choices => inr choices
        end.
Proof.
  rewrite get_completion_run. cbv zeta.
  destruct (_ !! "prompt");
    [intros [= <- <-] Hlog; by apply app_singleton_neq in Hlog|].
  destruct (_ !! "stop");
    [intros [= <- <-] Hlog; by apply app_singleton_neq in Hlog|].
  destruct (completion_create _ _) eqn:Hc; intros [= <- <-] Hlog;
    cbn [world asked requests] in Hlog; apply app_singleton_inv in Hlog as <-;
    by rewrite Hc.
Qed.

Lemma sent_params_lookup kwargs a k :
  sent_params kwargs a !! k =
  match kwargs !! k with
  | Some v => Some v
  | None =>
      if decide (k = "max_tokens")
      then Some (default (VInt 150) (completion_params a !! "max_tokens"))
      else completion_params a !! k
  end.
Proof.
  unfold sent_params. rewrite lookup_union.
  destruct (kwargs !! k) as [v|] eqn:Hk.
  - by destruct (<[_:=_]> (completion_params a) !! k).
  - rewrite (left_id_L None _). case_decide as Hmax.
    + subst k. by rewrite lookup_insert_eq.
    + by rewrite lookup_insert_ne.
Qed.

(** X6: the parameters that [get_completion] sends are the stored
    generation parameters, over which the keyword arguments of the call
    win; [max_tokens] is 150 when neither has it.  The stored parameters
    themselves are left as they were. *)
Theorem request_parameters
    (prompt : string) (stop : option (list string)) (kwargs : gmap string value)
    (st : State) (res : exn + list string) (st' : State) (rq : Request) :
  get_completion prompt stop kwargs st = (res, st') →
  requests (world st') = requests (world st) ++ [rq] →
  self st' = self st ∧
  ∀ k, req_params rq !! k =
       match kwargs !! k with
       | Some v => Some v
       | None =>
           if decide (k = "max_tokens")
           then Some (default (VInt 150) (completion_params (self st) !! "max_tokens"))
           else completion_params (self st) !! k
       end.
Proof.
  intros Hrun Hlog.
  destruct (get_completion_request _ _ _ _ _ _ _ Hrun Hlog) as (-> & -> & _).
  split; [done|]. intros k. apply sent_params_lookup.
Qed.

(** A [get_reply] that returns, step by step. *)
Lemma get_reply_returns_full msg mrl st reply st' :
  get_reply msg mrl st = (inr reply, st') →
  ∃ p st1 n rq text choices,
    reply_prompt msg st = (inr (p, or_default msg ""), st1) ∧
    name_of (self st1) = inr n ∧
    req_prompt rq = conversation_of (self st1) +:+ p ∧
    completion_create (requests (world st1)) rq = inr (text :: choices) ∧
    reply = sub_trailing_newlines (strip text) ∧
    update_conversation (or_default msg "") (Some reply)
      {| self := self st1; world := asked rq (world st1) |} = (inr tt, st').
Proof.
  rewrite get_reply_run.
  destruct (reply_prompt msg st) as [[e|[p m]] st1] eqn:H1; [done|].
  pose proof H1 as (_ & _ & Hm & _)%reply_prompt_outcome.
  rewrite (Hm p m eq_refl) in *.
  destruct (name_of (self st1)) as [e|n] eqn:Hn; [done|].
  rewrite get_completion_run. cbv zeta.
  destruct (_ !! "prompt"); [done|]. destruct (_ !! "stop"); [done|].
  match goal with |- context [completion_create ?l ?r] =>
    destruct (completion_create l r) as [d|[|text choices]] eqn:Hc; [done..|];
    set (rq := r) in *
  end.
  match goal with |- context [update_conversation ?a ?b ?s] =>
    destruct (update_conversation a b s) as [[e|[]] st3] eqn:H3; [done|]
  end.
  intros [= <- <-]. exists p, st1, n, rq, text, choices. by repeat split.
Qed.

Lemma update_conversation_requests msg reply st :
  requests (world (snd (update_conversation msg reply st))) = requests (world st).
Proof.
  destruct requests_kept_step as (Hr & Ht & Hs & Hl).
  by apply (update_conversation_step _ Hr Ht Hs Hl).
Qed.

(** X7: the text that [get_reply] returns is the first choice of the
    service with the white space around it removed, so it neither begins
    nor ends with white space; removing the final newlines afterwards
    changes nothing.  The call has sent exactly one request. *)
Theorem get_reply_trims
    (st : State) (msg : option string) (mrl : value) (reply : string)
    (st' : State) :
  get_reply msg mrl st = (inr reply, st') →
  ∃ rq text choices,
    requests (world st') = requests (world st) ++ [rq] ∧
    completion_create (requests (world st)) rq = inr (text :: choices) ∧
    reply = strip text ∧
    strip reply = reply.
Proof.
  intros (p & st1 & n & rq & text & choices & H1 & _ & _ & Hc & -> & Hup)
    %get_reply_returns_full.
  apply reply_prompt_outcome in H1 as (Heff & _).
  apply prefix_effect_frame in Heff as (_ & _ & Hrq & _).
  exists rq, text, choices. rewrite <- Hrq.
  pose proof (update_conversation_requests (or_default msg "")
                (Some (sub_trailing_newlines (strip text)))
                {| self := self st1; world := asked rq (world st1) |}) as Hsame.
  rewrite Hup in Hsame. cbn [snd] in Hsame.
  rewrite sub_trailing_newlines_strip.
  split; [exact Hsame|]. split; [done|]. split; [done|apply strip_idempotent].
Qed.

(** X8: on an active conversation, a [get_reply] with a message that
    returns leaves as transcript exactly the prompt that the service was
    given, followed by the reply it returns and a newline: the transcript
    records what the model saw and what it answered. *)
Theorem transcript_records_exchange
    (st : State) (m : string) (mrl : value) (reply : string) (st' : State) :
  is_conversation_active (self st) = true →
  m ≠ "" →
  get_reply (Some m) mrl st = (inr reply, st') →
  ∃ rq,
    requests (world st') = requests (world st) ++ [rq] ∧
    conversation_of (self st') = req_prompt rq +:+ reply +:+ LF.
Proof.
  intros Hact Hm Hrun.
  apply get_reply_returns_full in Hrun
    as (p & st1 & n & rq & text & choices & H1 & Hn & Hprompt & Hc & Hreply & Hup).
  assert (or_default (Some m) "" = m) as Hdef by apply or_default_empty.
  rewrite Hdef in *.
  pose proof H1 as (_ & _ & _ & Hkeep)%reply_prompt_outcome.
  rewrite (Hkeep (or_introl Hact)) in *. clear Hkeep.
  rewrite reply_prompt_run in H1.
  assert (or_else (Some m) None = Some m) as Hgiven by by destruct m.
  rewrite Hgiven in H1.
  destruct (make_chat_prompt m None true st) as [[e|q] st0] eqn:Hq; [done|].
  injection H1 as -> ->.
  apply make_chat_prompt_returns in Hq as (n1 & Hn1 & Hp & _).
  apply update_conversation_returns in Hup as (p' & st2 & Hq' & ->).
  apply make_chat_prompt_returns in Hq' as (n2 & Hn2 & Hp' & Hst2).
  cbn [self] in *. rewrite Hact in Hst2. cbn [negb orb] in Hst2. subst st2.
  rewrite Hn1 in Hn2. injection Hn2 as <-.
  rewrite Hp in Hp'. injection Hp' as <-.
  exists rq. split; [done|].
  cbn [self]. rewrite conversation_of_logged, or_default_empty, Hprompt, Hreply.
  rewrite sub_trailing_newlines_strip, strip_idempotent.
  by rewrite !append_assoc.
Qed.

End Requests.

(** ** The parameters and the prompt of the two kinds of reply *)

Section ReplyRequests.
Context `{Platform}.

Lemma max_tokens_sent v a k :
  sent_params {["max_tokens" := v]} a !! k =
  if decide (k = "max_tokens") then Some v else completion_params a !! k.
Proof.
  rewrite sent_params_lookup. case_decide as Hk.
  - subst k. by rewrite lookup_singleton_eq.
  - by rewrite lookup_singleton_ne.
Qed.

Lemma get_reply_request_params msg mrl st res st' rq :
  get_reply msg mrl st = (res, st') →
  requests (world st') = requests (world st) ++ [rq] →
  req_params rq =
    sent_params {["max_tokens" := value_or mrl
                    (default VNone (completion_params (self st) !! "max_tokens"))]}
      (self (snd (reply_prompt msg st))) ∧
  completion_params (self (snd (reply_prompt msg st))) = completion_params (self st).
Proof.
  rewrite get_reply_run.
  destruct (reply_prompt msg st) as [r1 st1] eqn:H1.
  pose proof H1 as (Heff & _)%reply_prompt_outcome.
  apply prefix_effect_frame in Heff as (_ & _ & Hrq1 & _ & _ & _ & Hparams & _).
  cbn [snd]. intros Hrun Hlog. split; [|done]. revert Hrun Hlog.
  destruct r1 as [e|[p m]].
  { intros [= <- <-] Hlog. rewrite Hrq1 in Hlog. by apply app_singleton_neq in Hlog. }
  destruct (name_of (self st1)) as [e|n] eqn:Hn.
  { intros [= <- <-] Hlog. rewrite Hrq1 in Hlog. by apply app_singleton_neq in Hlog. }
  destruct (get_completion _ _ _ st1) as [r2 st2] eqn:H2.
  intros Hrun Hlog.
  assert (requests (world st') = requests (world st2)) as Hrq3.
  { destruct r2 as [e|[|text choices]]; [by injection Hrun as <- <-..|].
    cbv zeta in Hrun.
    match type of Hrun with context [update_conversation ?a ?b st2] =>
      pose proof (update_conversation_requests a b st2) as Hsame;
      destruct (update_conversation a b st2) as [[e|[]] st3]
    end; by injection Hrun as <- <-. }
  rewrite Hrq3, <- Hrq1 in Hlog.
  destruct (get_completion_request _ _ _ _ _ _ _ H2 Hlog) as (-> & _).
  cbn [req_params]. by rewrite Hparams.
Qed.

Lemma get_single_reply_request msg mrl user st res st' rq :
  get_single_reply msg mrl user st = (res, st') →
  requests (world st') = requests (world st) ++ [rq] →
  ∃ p st1 u n,
    make_chat_prompt msg None false st = (inr p, st1) ∧
    or_else user (username (self st)) = Some u ∧
    name_of (self st1) = inr n ∧
    rq = {| req_prompt := p;
            req_params :=
              sent_params {["max_tokens" := value_or mrl
                              (default VNone (completion_params (self st1) !! "max_tokens"))]}
                (self st1);
            req_stop := Some [u +:+ ":"; n +:+ ":"] |}.
Proof.
  rewrite get_single_reply_run.
  destruct (make_chat_prompt msg None false st) as [r1 st1] eqn:H1.
  pose proof (make_chat_prompt_frame _ _ _ _ _ _ H1) as Heff.
  apply prefix_effect_frame in Heff as (_ & _ & Hrq1 & _).
  destruct r1 as [e|p].
  { intros [= <- <-] Hlog. rewrite Hrq1 in Hlog. by apply app_singleton_neq in Hlog. }
  destruct (or_else user (username (self st))) as [u|].
  2:{ intros [= <- <-] Hlog. rewrite Hrq1 in Hlog. by apply app_singleton_neq in Hlog. }
  destruct (name_of (self st1)) as [e|n] eqn:Hn.
  { intros [= <- <-] Hlog. rewrite Hrq1 in Hlog. by apply app_singleton_neq in Hlog. }
  destruct (get_completion _ _ _ st1) as [r2 st2] eqn:H2.
  intros Hrun Hlog.
  assert (st' = st2) as -> by (destruct r2 as [e|[|text choices]]; by injection Hrun).
  rewrite <- Hrq1 in Hlog.
  destruct (get_completion_request _ _ _ _ _ _ _ H2 Hlog) as (-> & _).
  by exists p, st1, u, n.
Qed.

(** X9: the [max_tokens] that [get_reply] and [get_single_reply] send is
    the [max_response_length] of the call when it is given and not zero,
    and otherwise the stored [max_tokens], or [None] when none is stored:
    the default of 150 in [get_completion] never applies to them.  Every
    other parameter is sent as it is stored. *)
Theorem reply_max_tokens :
  (∀ (st : State) (msg : option string) (mrl : value) (res : exn + string)
     (st' : State) (rq : Request),
     get_reply msg mrl st = (res, st') →
     requests (world st') = requests (world st) ++ [rq] →
     ∀ k, req_params rq !! k =
          if decide (k = "max_tokens")
          then Some (value_or mrl
                       (default VNone (completion_params (self st) !! "max_tokens")))
          else completion_params (self st) !! k) ∧
  (∀ (st : State) (msg : string) (mrl : value) (user : option string)
     (res : exn + string) (st' : State) (rq : Request),
     get_single_reply msg mrl user st = (res, st') →
     requests (world st') = requests (world st) ++ [rq] →
     ∀ k, req_params rq !! k =
          if decide (k = "max_tokens")
          then Some (value_or mrl
                       (default VNone (completion_params (self st) !! "max_tokens")))
          else completion_params (self st) !! k).
Proof.
  split.
  - intros st msg mrl res st' rq Hrun Hlog k.
    destruct (get_reply_request_params _ _ _ _ _ _ Hrun Hlog) as [-> Hparams].
    by rewrite max_tokens_sent, Hparams.
  - intros st msg mrl user res st' rq Hrun Hlog k.
    destruct (get_single_reply_request _ _ _ _ _ _ _ Hrun Hlog)
      as (p & st1 & u & n & H1 & _ & _ & ->).
    apply make_chat_prompt_frame, prefix_effect_frame in H1
      as (_ & _ & _ & _ & _ & _ & Hparams & _).
    cbn [req_params]. by rewrite max_tokens_sent, Hparams.
Qed.

(** X17: a generation parameter stored with [set_agent_param] under a
    name other than [max_tokens] is part of the request that the next
    [get_reply] sends, with the value it was given. *)
Theorem stored_parameter_is_sent
    (st : State) (param : string) (val : value) (msg : option string)
    (mrl : value) (res : exn + string) (st' : State) (rq : Request) :
  param ≠ "max_tokens" →
  get_reply msg mrl (snd (set_agent_param param val st)) = (res, st') →
  requests (world st') = requests (world st) ++ [rq] →
  req_params rq !! param = Some val.
Proof.
  intros Hparam Hrun Hlog.
  destruct (get_reply_request_params _ _ _ _ _ _ Hrun Hlog) as [-> Hparams].
  rewrite max_tokens_sent, Hparams. case_decide; [done|].
  cbn [set_agent_param modify snd self completion_params with_completion_params].
  apply lookup_insert_eq.
Qed.

(** X10: the request of [get_single_reply] carries the rendered message
    template alone, without the transcript or the start template; its
    human label is the name recorded on entry, whatever [user_name] the
    call was given, while the first stop sequence is built from that
    [user_name] when it is given. *)
Theorem get_single_reply_prompt
    (st : State) (msg : string) (mrl : value) (user : option string)
    (res : exn + string) (st' : State) (rq : Request) :
  get_single_reply msg mrl user st = (res, st') →
  requests (world st') = requests (world st) ++ [rq] →
  ∃ n u,
    name_of (self st) = inr n ∧
    or_else user (username (self st)) = Some u ∧
    str_format (MSG_TEMPLATE (self st))
      [("user_name", username (self st)); ("AGENT_NAME", Some n);
       ("MSG", Some (strip msg))] = inr (req_prompt rq) ∧
    req_stop rq = Some [u +:+ ":"; n +:+ ":"].
Proof.
  intros Hrun Hlog.
  destruct (get_single_reply_request _ _ _ _ _ _ _ Hrun Hlog)
    as (p & st1 & u & n & H1 & Hu & Hn & ->).
  pose proof (make_chat_prompt_frame _ _ _ _ _ _ H1) as Heff.
  apply prefix_effect_frame in Heff as (_ & _ & _ & Hname & _).
  apply make_chat_prompt_returns in H1 as (n1 & Hn1 & Hp & _).
  rewrite Hname, Hn1 in Hn. injection Hn as ->.
  exists n, u. by repeat split.
Qed.

(** X11: once a generation parameter named [prompt] or [stop] is stored,
    [get_completion] raises [TypeError] without contacting the service and
    without changing anything, and neither [get_reply] nor
    [get_single_reply] can return or send a request any more. *)
Theorem reserved_parameter_blocks_queries (st : State) :
  is_Some (completion_params (self st) !! "prompt") ∨
  is_Some (completion_params (self st) !! "stop") →
  (∀ prompt stop kwargs, get_completion prompt stop kwargs st = (inl TypeError, st)) ∧
  (∀ msg mrl,
     (∃ e, fst (get_reply msg mrl st) = inl e) ∧
     requests (world (snd (get_reply msg mrl st))) = requests (world st)) ∧
  (∀ msg mrl user,
     (∃ e, fst (get_single_reply msg mrl user st) = inl e) ∧
     requests (world (snd (get_single_reply msg mrl user st))) = requests (world st)).
Proof.
  intros Hreserved.
  assert (∀ st1 prompt stop kwargs,
    completion_params (self st1) = completion_params (self st) →
    get_completion prompt stop kwargs st1 = (inl TypeError, st1)) as Hblock.
  { intros st1 prompt stop kwargs Hsame. rewrite get_completion_run. cbv zeta.
    rewrite !sent_params_lookup, Hsame.
    destruct Hreserved as [[v Hv]|[v Hv]]; rewrite Hv.
    - repeat case_decide; try done. by destruct (kwargs !! "prompt").
    - repeat case_decide; try done.
      destruct (kwargs !! "prompt"); [done|].
      destruct (completion_params (self st) !! "prompt"); [done|].
      by destruct (kwargs !! "stop"). }
  split; [intros; by apply Hblock|]. split.
  - intros msg mrl. rewrite get_reply_run.
    destruct (reply_prompt msg st) as [r1 st1] eqn:H1.
    apply reply_prompt_outcome in H1 as (Heff & _).
    apply prefix_effect_frame in Heff as (_ & _ & Hrq & _ & _ & _ & Hparams & _).
    destruct r1 as [e|[p m]]; [eauto|].
    destruct (name_of (self st1)) as [e|n]; [eauto|].
    rewrite (Hblock st1 _ _ _ Hparams). eauto.
  - intros msg mrl user. rewrite get_single_reply_run.
    destruct (make_chat_prompt msg None false st) as [r1 st1] eqn:H1.
    apply make_chat_prompt_frame, prefix_effect_frame in H1
      as (_ & _ & Hrq & _ & _ & _ & Hparams & _).
    destruct r1 as [e|p]; [eauto|].
    destruct (or_else user (username (self st))) as [u|]; [|eauto].
    destruct (name_of (self st1)) as [e|n]; [eauto|].
    rewrite (Hblock st1 _ _ _ Hparams). eauto.
Qed.

End ReplyRequests.

(** ** Logs of a sequence of updates *)

Lemma default_last_cons {A} (d x : A) (l : list A) :
  default d (last (x :: l)) = default x (last l).
Proof.
  revert d x. induction l as [|y l IH]; intros d x; [done|].
  change (last (x :: y :: l)) with (last (y :: l)). by rewrite !IH.
Qed.

Section UpdateLogs.
Context `{Platform}.

(** X12: when a sequence of [update_conversation] and [send_message]
    calls has returned, the message log has been extended by the messages
    of the calls, one for each call and in their order, and the reply log
    by the replies that were given and not empty, in their order. *)
Theorem update_calls_log (cs : list Call) (st : State) (trace : list State) :
  run_calls cs st = inr trace →
  length trace = length cs ∧
  __messages__ (self (default st (last trace)))
    = __messages__ (self st) ++ (call_msg <$> cs) ∧
  __replies__ (self (default st (last trace)))
    = __replies__ (self st) ++ omap call_reply cs.
Proof.
  revert st trace. induction cs as [|c cs IH]; intros st trace Hrun.
  { injection Hrun as <-. cbn. by rewrite !app_nil_r. }
  cbn [run_calls] in Hrun.
  destruct (run_call c st) as [[e|[]] st1] eqn:Hc; [done|].
  destruct (run_calls cs st1) as [e|trace1] eqn:Hcs; [done|].
  injection Hrun as <-.
  destruct (IH st1 trace1 Hcs) as (Hlen & Hm & Hr).
  rewrite default_last_cons.
  rewrite Hm, Hr. cbn [length]. rewrite Hlen. split; [done|].
  assert (update_conversation (call_msg c)
            (match c with UpdateConversation _ r => r | SendMessage _ => None end) st
          = (inr tt, st1)) as Hup by by destruct c.
  apply update_conversation_appends in Hup as (_ & -> & ->).
  split; [by rewrite fmap_cons, <- (assoc_L (++))|].
  destruct c as [msg reply|msg]; simpl; [|done].
  destruct (truthy (or_default reply "")); [|done].
  by rewrite <- (assoc_L (++)).
Qed.

End UpdateLogs.

(** ** Starting a conversation *)

Section Start.
Context `{Platform}.

(** X13: [start_conversation] either raises and changes nothing, or
    returns with the transcript replaced by the rendered start template,
    whatever the transcript was, the conversation active and the given
    name, or "HUMAN", on record, while both logs are kept; started again
    with the same name it returns again and leaves the same transcript,
    name, activity and logs. *)
Theorem start_conversation_restarts (user : option string) (st : State) :
  (∀ e st', start_conversation user st = (inl e, st') → st' = st) ∧
  (∀ st', start_conversation user st = (inr tt, st') →
     (∃ n t,
        name_of (self st) = inr n ∧
        str_format (START_TEMPLATE (self st)) (start_kwargs n user) = inr t ∧
        conversation_of (self st') = t) ∧
     is_conversation_active (self st') = true ∧
     username (self st') = Some (or_default user "HUMAN") ∧
     __messages__ (self st') = __messages__ (self st) ∧
     __replies__ (self st') = __replies__ (self st) ∧
     ∃ st'',
       start_conversation user st' = (inr tt, st'') ∧
       conversation_of (self st'') = conversation_of (self st') ∧
       username (self st'') = username (self st') ∧
       is_conversation_active (self st'') = true ∧
       __messages__ (self st'') = __messages__ (self st') ∧
       __replies__ (self st'') = __replies__ (self st')).
Proof.
  split.
  - intros e st'. rewrite start_conversation_run.
    destruct (name_of (self st)); [by intros [= _ <-]|].
    destruct (str_format _ _); [by intros [= _ <-]|done].
  - intros st'. rewrite start_conversation_run.
    destruct (name_of (self st)) as [e|n] eqn:Hn; [done|].
    destruct (str_format _ _) as [e|t] eqn:Ht; [done|].
    intros [= <-]. cbn [self].
    split; [exists n, t; repeat split; [done..|apply or_default_empty]|].
    do 4 (split; [done|]).
    rewrite start_conversation_run. cbn [self].
    rewrite name_of_started, Hn.
    change (START_TEMPLATE (started _ _ _ (self st))) with (START_TEMPLATE (self st)).
    rewrite Ht. eexists. by repeat split.
Qed.

End Start.

(** ** Construction *)

Section Init.
Context `{Platform}.

(** X14: the constructor refuses, without building an agent, an engine
    that is not among the available ones ([ValueError]) and, for an
    available engine, extra parameters that name [max_tokens] or [n]
    ([TypeError]: the keyword is given twice to [dict]); when the list of
    engines cannot be had its failure is what the constructor raises. *)
Theorem init_rejects (args : InitArgs) (w : World) :
  (∀ detail, available_engines = inl detail →
     __init__ args w = (inl (EngineListError detail), w)) ∧
  (∀ engines, available_engines = inr engines →
     arg_engine args ∉ engines →
     __init__ args w = (inl ValueError, w)) ∧
  (∀ engines, available_engines = inr engines →
     arg_engine args ∈ engines →
     is_Some (arg_extra_params args !! "max_tokens") ∨
     is_Some (arg_extra_params args !! "n") →
     __init__ args w = (inl TypeError, w)).
Proof.
  unfold __init__, get_available_engines. repeat split.
  - by intros detail ->.
  - intros engines -> Hout. by rewrite bool_decide_eq_false_2.
  - intros engines -> Hin Hextra. rewrite bool_decide_eq_true_2 by done.
    destruct Hextra as [[v ->]|[v ->]]; [done|].
    by destruct (arg_extra_params args !! "max_tokens").
Qed.

(** X15: an agent that the constructor returns is inactive, with an
    empty transcript, no human name and empty logs; its engine is one of
    the available ones and is stored, with the maximal response length as
    [max_tokens], among its parameters; its display name is the name it
    was given, unless that name is missing, empty or the identifier of an
    available engine, in which case it is the engine in upper case. *)
Theorem init_state (args : InitArgs) (w : World) (a : OpenAIAgent) (w' : World) :
  __init__ args w = (inr a, w') →
  (is_conversation_active a = false ∧ conversation_of a = "" ∧
   username a = None ∧ __messages__ a = [] ∧ __replies__ a = []) ∧
  (∃ engines, available_engines = inr engines ∧ arg_engine args ∈ engines ∧
     name_of a =
       inr (if bool_decide (or_default (arg_name args) (upper (arg_engine args))
                            ∈ engines)
            then upper (arg_engine args)
            else or_default (arg_name args) (upper (arg_engine args)))) ∧
  completion_params a !! "engine" = Some (VStr (arg_engine args)) ∧
  completion_params a !! "max_tokens" = Some (arg_max_response_length args) ∧
  requests w' = requests w.
Proof.
  unfold __init__, name_of, engine_of, get_available_engines.
  destruct available_engines as [d|engines]; [done|].
  case_bool_decide as Hin; [|done].
  destruct (_ !! "max_tokens"); [done|]. destruct (_ !! "n"); [done|].
  intros [= <- <-]. cbn [is_conversation_active conversation_of _conversation__
    username __messages__ __replies__ _agent_name completion_params requests].
  split; [done|]. split.
  - exists engines. split; [done|]. split; [done|].
    rewrite lookup_insert_eq. by case_bool_decide.
  - split; [by rewrite lookup_insert_eq|]. split; [|done]. by simplify_map_eq.
Qed.

End Init.

(** ** The length of a conversation *)

Lemma prefix_shorter (pattern s : string) :
  String.prefix pattern s = true → String.length pattern ≤ String.length s.
Proof.
  revert s. induction pattern as [|c p IH]; intros s; [simpl; lia|].
  destruct s as [|d s]; [done|]. simpl.
  destruct (Ascii.ascii_dec c d); [|done]. intros Hp%IH. lia.
Qed.

Lemma prefix_empty (s : string) : String.prefix "" s = true.
Proof. by destruct s. Qed.

Lemma prefix_within (pattern s t : string) :
  String.length pattern ≤ String.length s →
  String.prefix pattern (s +:+ t) = String.prefix pattern s.
Proof.
  revert s. induction pattern as [|c p IH]; intros s; [by rewrite !prefix_empty|].
  destruct s as [|d s]; [simpl; lia|].
  change (String d s +:+ t) with (String d (s +:+ t)). simpl. intros Hlen.
  destruct (Ascii.ascii_dec c d); [apply IH; lia|done].
Qed.

Lemma count_matches_short (pattern s : string) (skip : nat) :
  String.length s < String.length pattern → count_matches pattern s skip = 0.
Proof.
  revert skip. induction s as [|d s IH]; intros skip Hlen; [done|].
  cbn [count_matches]. simpl in Hlen. destruct skip as [|k]; [|apply IH; lia].
  destruct (String.prefix pattern (String d s)) eqn:Hp.
  - apply prefix_shorter in Hp. simpl in Hp. lia.
  - apply IH. lia.
Qed.

(** Text added at the end of a string never removes a match. *)
Lemma count_matches_append (pattern s t : string) (skip : nat) :
  count_matches pattern s skip ≤ count_matches pattern (s +:+ t) skip.
Proof.
  revert skip. induction s as [|d s IH]; intros skip; [simpl; lia|].
  change (String d s +:+ t) with (String d (s +:+ t)). cbn [count_matches].
  destruct skip as [|k]; [|apply IH].
  destruct (le_lt_dec (String.length pattern) (String.length (String d s)))
    as [Hfits|Hshort].
  - change (String d (s +:+ t)) with (String d s +:+ t).
    rewrite (prefix_within pattern (String d s) t Hfits).
    destruct (String.prefix pattern (String d s)); [apply le_n_S|]; apply IH.
  - destruct (String.prefix pattern (String d s)) eqn:Hp.
    { apply prefix_shorter in Hp. lia. }
    rewrite (count_matches_short pattern s 0) by (simpl in Hshort; lia). lia.
Qed.

Section Length.
Context `{Platform}.

(** X16: on an active conversation whose human name is plain text for
    [re], the length of the conversation, that is the number of times the
    label of the human occurs in the transcript, is defined before and
    after a transcript update that returns, and has not decreased. *)
Theorem len_never_decreases
    (st : State) (msg : string) (reply : option string) (st' : State) (n : nat) :
  is_conversation_active (self st) = true →
  update_conversation msg reply st = (inr tt, st') →
  __len__ (self st) = Some n →
  ∃ n', __len__ (self st') = Some n' ∧ n ≤ n'.
Proof.
  intros Hact Hup Hlen.
  pose proof Hup as ((p & Hconv) & _)%update_conversation_appends.
  apply update_conversation_returns in Hup as (q & st1 & Hq & ->).
  pose proof (make_chat_prompt_active msg None st Hact) as Hkeep.
  rewrite Hq in Hkeep. cbn [snd] in Hkeep. subst st1.
  cbn [self] in *. unfold __len__ in *.
  destruct (logged_frame (conversation_of (self st)) q msg (or_default reply "")
              (self st)) as (_ & _ & _ & _ & -> & _).
  cbv zeta in *.
  destruct (regex_literal (fstring (username (self st)) +:+ ":")); [|done].
  injection Hlen as <-. eexists. split; [done|].
  change (or_default (_conversation__ ?a) "") with (conversation_of a).
  rewrite Hconv, !append_assoc. apply count_matches_append.
Qed.

End Length.

(** ** The further properties at work on the stub platform *)

Section MoreScenarios.
Import Stub.

Local Abbreviation bot := (fresh "BOT").
Local Abbreviation hello := (answering "hello").
Local Abbreviation alice := (after (@start_conversation hello (Some "Alice")) bot).

Lemma conversation_stays_active_witness :
  is_conversation_active
    (self (@run_ops hello
             [OpGetSingleReply "Hi" VNone None; OpStartConversation None;
              OpAddToConversation "x"; OpSetConversation ""] alice)) = true.
Proof. apply (@conversation_stays_active hello). evaluate. Defined.

Lemma identity_never_changes_witness :
  let st' := @run_ops hello
               [OpGetReply (Some "Hi") VNone; OpStartConversation (Some "Bob");
                OpSendMessage "bye"] alice in
  completion_params (self st') = completion_params (self alice) ∧
  @name_of hello (self st') = @name_of hello (self alice).
Proof.
  intros st'.
  destruct (@identity_never_changes hello
              [OpGetReply (Some "Hi") VNone; OpStartConversation (Some "Bob");
               OpSendMessage "bye"] alice) as [_ Hquiet].
  apply Hquiet. evaluate.
Defined.

Lemma reachable_consistent_witness :
  consistent (self (@run_op hello (OpGetReply (Some "Hi") VNone) bot)).
Proof.
  apply (@reachable_consistent hello), reachable_step.
  apply (@reachable_init hello (named "BOT") boot). evaluate.
Defined.

Lemma request_parameters_witness :
  let st' := after (@get_completion hello "Say hi" None {["temperature" := VInt 0]}) bot in
  ∃ rq,
    requests (world st') = requests (world bot) ++ [rq] ∧
    req_params rq !! "temperature" = Some (VInt 0) ∧
    req_params rq !! "max_tokens" = Some (VInt 150) ∧
    req_params rq !! "engine" = Some (VStr "text-davinci-003").
Proof.
  intros st'.
  assert (∃ rq, requests (world st') = requests (world bot) ++ [rq]) as [rq Hlog]
    by (vm_compute; eexists; reflexivity).
  exists rq. split; [exact Hlog|].
  destruct (@request_parameters hello "Say hi" None {["temperature" := VInt 0]} bot
              (outcome (@get_completion hello "Say hi" None {["temperature" := VInt 0]}) bot)
              st' rq) as [_ Hk]; [apply surjective_pairing|exact Hlog|].
  rewrite !Hk. by vm_compute.
Defined.

Local Abbreviation padded := (answering ("  Hello Alice!" +:+ LF +:+ LF)).

Lemma get_reply_trims_witness :
  let st' := after (@get_reply padded (Some "Hi") VNone) alice in
  ∃ rq text choices,
    requests (world st') = requests (world alice) ++ [rq] ∧
    @completion_create padded (requests (world alice)) rq = inr (text :: choices) ∧
    "Hello Alice!" = strip text ∧
    strip "Hello Alice!" = "Hello Alice!".
Proof.
  intros st'.
  assert (@get_reply padded (Some "Hi") VNone alice = (inr "Hello Alice!", st'))
    as Hrun by evaluate.
  exact (@get_reply_trims padded _ _ _ _ _ Hrun).
Defined.

Lemma transcript_records_exchange_witness :
  let st' := after (@get_reply padded (Some "Hi") VNone) alice in
  ∃ rq,
    requests (world st') = requests (world alice) ++ [rq] ∧
    conversation_of (self st') = req_prompt rq +:+ "Hello Alice!" +:+ LF.
Proof.
  intros st'.
  assert (@get_reply padded (Some "Hi") VNone alice = (inr "Hello Alice!", st'))
    as Hrun by evaluate.
  assert (is_conversation_active (self alice) = true) as Hact by evaluate.
  apply (@transcript_records_exchange padded alice "Hi" VNone _ st' Hact); [done|].
  exact Hrun.
Defined.

Lemma reply_max_tokens_witness :
  let st' := after (@get_reply hello (Some "Hi") (VInt 20)) alice in
  ∃ rq,
    requests (world st') = requests (world alice) ++ [rq] ∧
    req_params rq !! "max_tokens" = Some (VInt 20) ∧
    req_params rq !! "n" = Some (VInt 1).
Proof.
  intros st'.
  assert (∃ rq, requests (world st') = requests (world alice) ++ [rq]) as [rq Hlog]
    by (vm_compute; eexists; reflexivity).
  exists rq. split; [exact Hlog|].
  destruct (@reply_max_tokens hello) as [Hreply _].
  pose proof (Hreply alice (Some "Hi") (VInt 20)
                (outcome (@get_reply hello (Some "Hi") (VInt 20)) alice) st' rq
                (surjective_pairing _) Hlog) as Hk.
  rewrite !Hk. by vm_compute.
Defined.

Lemma get_single_reply_prompt_witness :
  let st' := after (@get_single_reply hello "Hi" VNone (Some "Al")) alice in
  ∃ rq,
    requests (world st') = requests (world alice) ++ [rq] ∧
    req_prompt rq = turn (Some "Alice") "BOT" "Hi" ∧
    req_stop rq = Some ["Al:"; "BOT:"].
Proof.
  intros st'.
  assert (∃ rq, requests (world st') = requests (world alice) ++ [rq]) as [rq Hlog]
    by (vm_compute; eexists; reflexivity).
  exists rq. split; [exact Hlog|].
  destruct (@get_single_reply_prompt hello alice "Hi" VNone (Some "Al")
              (outcome (@get_single_reply hello "Hi" VNone (Some "Al")) alice) st' rq)
    as (n & u & Hn & Hu & Hp & Hstop); [apply surjective_pairing|exact Hlog|].
  assert (@name_of hello (self alice) = inr "BOT") as Hbot by evaluate.
  rewrite Hbot in Hn. injection Hn as <-.
  assert (or_else (Some "Al") (username (self alice)) = Some "Al") as Hal by evaluate.
  rewrite Hal in Hu. injection Hu as <-.
  assert (@str_format hello (MSG_TEMPLATE (self alice))
            [("user_name", username (self alice)); ("AGENT_NAME", Some "BOT");
             ("MSG", Some (strip "Hi"))] = inr (turn (Some "Alice") "BOT" "Hi"))
    as Hturn by evaluate.
  rewrite Hturn in Hp. injection Hp as <-. by split.
Defined.

Lemma stored_parameter_is_sent_witness :
  let warm := after (set_agent_param "temperature" (VFloat 2 (-1))) alice in
  let st' := after (@get_reply hello (Some "Hi") VNone) warm in
  ∃ rq,
    requests (world st') = requests (world alice) ++ [rq] ∧
    req_params rq !! "temperature" = Some (VFloat 2 (-1)).
Proof.
  intros warm st'.
  assert (∃ rq, requests (world st') = requests (world alice) ++ [rq]) as [rq Hlog]
    by (vm_compute; eexists; reflexivity).
  exists rq. split; [exact Hlog|].
  apply (@stored_parameter_is_sent hello alice "temperature" (VFloat 2 (-1))
           (Some "Hi") VNone (outcome (@get_reply hello (Some "Hi") VNone) warm) st' rq);
    [done|apply surjective_pairing|exact Hlog].
Defined.

Local Abbreviation blocked := (after (set_agent_param "stop" (VStr "###")) alice).

Lemma reserved_parameter_blocks_queries_witness :
  @get_completion hello "Say hi" None ∅ blocked = (inl TypeError, blocked) ∧
  requests (world (after (@get_reply hello (Some "Hi") VNone) blocked))
    = requests (world blocked).
Proof.
  assert (completion_params (self blocked) !! "stop" = Some (VStr "###")) as Hstop
    by evaluate.
  destruct (@reserved_parameter_blocks_queries hello blocked
              (or_intror (ex_intro _ _ Hstop))) as (Hcompletion & Hreply & _).
  split; [exact (Hcompletion _ _ _)|].
  destruct (Hreply (Some "Hi") VNone) as [_ Hsame]. exact Hsame.
Defined.

Lemma update_calls_log_witness :
  let calls := [SendMessage "hi"; UpdateConversation "how are you?" (Some " fine ")] in
  let s1 := after (@send_message hello "hi") alice in
  let s2 := after (@update_conversation hello "how are you?" (Some " fine ")) s1 in
  @run_calls hello calls alice = inr [s1; s2] ∧
  length [s1; s2] = length calls ∧
  __messages__ (self (default alice (last [s1; s2])))
    = __messages__ (self alice) ++ (call_msg <$> calls) ∧
  __replies__ (self (default alice (last [s1; s2])))
    = __replies__ (self alice) ++ omap call_reply calls.
Proof.
  intros calls s1 s2.
  assert (@run_calls hello calls alice = inr [s1; s2]) as Hrun by evaluate.
  split; [exact Hrun|]. exact (@update_calls_log hello calls alice [s1; s2] Hrun).
Defined.

Lemma start_conversation_restarts_witness :
  let st' := after (@start_conversation hello (Some "Bob")) alice in
  conversation_of (self st') = greeting "BOT" "a person named Bob" ∧
  username (self st') = Some "Bob".
Proof.
  intros st'.
  assert (@start_conversation hello (Some "Bob") alice = (inr tt, st')) as Hrun
    by evaluate.
  destruct (@start_conversation_restarts hello (Some "Bob") alice) as [_ Hret].
  destruct (Hret st' Hrun) as ((n & t & Hn & Ht & Hc) & _ & Hu & _).
  assert (@name_of hello (self alice) = inr "BOT") as Hbot by evaluate.
  rewrite Hbot in Hn. injection Hn as <-.
  assert (@str_format hello (START_TEMPLATE (self alice))
            (start_kwargs "BOT" (Some "Bob"))
          = inr (greeting "BOT" "a person named Bob")) as Hstart by evaluate.
  rewrite Hstart in Ht. injection Ht as <-.
  split; [exact Hc|]. etrans; [exact Hu|evaluate].
Defined.

Lemma init_rejects_witness :
  @__init__ hello
    {| arg_name := Some "BOT"; arg_engine := "not-a-real-model";
       arg_start_template := None; arg_msg_template := None;
       arg_max_response_length := VInt 150; arg_temperature := VFloat 8 (-1);
       arg_top_p := VInt 1; arg_frequency_penalty := VFloat 3 (-1);
       arg_presence_penalty := VFloat 1 (-1);
       arg_n_completions_per_prompt := VInt 1; arg_extra_params := ∅ |} boot
  = (inl ValueError, boot).
Proof.
  destruct (@init_rejects hello
    {| arg_name := Some "BOT"; arg_engine := "not-a-real-model";
       arg_start_template := None; arg_msg_template := None;
       arg_max_response_length := VInt 150; arg_temperature := VFloat 8 (-1);
       arg_top_p := VInt 1; arg_frequency_penalty := VFloat 3 (-1);
       arg_presence_penalty := VFloat 1 (-1);
       arg_n_completions_per_prompt := VInt 1; arg_extra_params := ∅ |} boot)
    as (_ & Hvalue & _).
  apply (Hvalue engines eq_refl).
  intros Hin%(bool_decide_eq_true_2 _). by vm_compute in Hin.
Defined.

Lemma init_state_witness :
  is_conversation_active (self bot) = false ∧
  conversation_of (self bot) = "" ∧
  completion_params (self bot) !! "max_tokens" = Some (VInt 150).
Proof.
  assert (@__init__ hello (named "BOT") boot = (inr (self bot), world bot)) as Hinit
    by evaluate.
  destruct (@init_state hello _ _ _ _ Hinit)
    as ((Hoff & Hempty & _) & _ & _ & Hmax & _).
  split; [exact Hoff|]. split; [exact Hempty|exact Hmax].
Defined.

Lemma len_never_decreases_witness :
  let st' := after (@send_message hello "hi") alice in
  ∃ n', __len__ (self st') = Some n' ∧ 0 ≤ n'.
Proof.
  intros st'.
  assert (is_conversation_active (self alice) = true) as Hact by evaluate.
  assert (@update_conversation hello "hi" None alice = (inr tt, st')) as Hrun
    by evaluate.
  assert (__len__ (self alice) = Some 0) as Hlen by evaluate.
  exact (@len_never_decreases hello alice "hi" None st' 0 Hact Hrun Hlen).
Defined.

(** The scenario of the transcript's length: one exchange, one label. *)
Example len_after_one_exchange :
  __len__ (self (after (@get_reply hello (Some "Hi") VNone) alice)) = Some 1.
Proof. evaluate. Qed.

End MoreScenarios.
